(** * koo5/horizon: the geospatial photo-selection engine and the GPS extractor

    A shallow embedding of [aiaiail/main.py] (the PySide6 variant: [haversine],
    [compute_bearing], [angle_difference], the selection loop of
    [update_left_pane], [get_lat_lon_direction], [scan_directory]) and of
    [kivy/main.py] (the Kivy variant: [get_decimal_coordinates],
    [get_orientation], [scan_directory_for_images]).

    The Python functions are written once, over an interface [PyFloat] of the
    operations Python offers on [float]; exceptions are threaded through a
    small error monad.  Two semantics of the interface follow:
    - [xreal]: exact real arithmetic extended with the IEEE special values
      (signed infinities and NaN) -- the arithmetic the formulas are meant in;
    - [binary64]: IEEE-754 double precision (Rocq's primitive floats), with
      the C library's transcendental functions as a parameter. *)

From Stdlib Require Import Reals Lra Lia ZArith List Bool Zfloor Sorted.
From Stdlib Require Floats.
From stdpp Require Import gmap strings.

(** ** Exceptions and the error monad *)

(** The Python exceptions the modelled code can raise. *)
Inductive exn : Set :=
| ValueError          (* "math domain error" *)
| ZeroDivisionError
| OverflowError
| KeyError
| IndexError
| AttributeError
| TypeError.

Inductive result (A : Type) : Type :=
| Ok (a : A)
| Raise (e : exn).
Arguments Ok {A} a.
Arguments Raise {A} e.

(** Sequencing: an exception raised by [m] ends the computation.  With this
    instance stdpp's [x ← m; k] reads as a Python statement sequence. *)
Definition bind {A B} (k : A -> result B) (m : result A) : result B :=
  match m with
  | Ok a => k a
  | Raise e => Raise e
  end.

#[global] Instance result_bind : MBind result := @bind.
#[global] Instance result_ret : MRet result := @Ok.

Definition raises {A} (m : result A) : Prop := exists e, m = Raise e.

(** ** Python's [float], as an interface *)

(** What the two programs use of Python's [float] and of the [math] module.
    [lit z] is the value of the numeric literal [z] (and of [float(z)] for an
    int [z]); [fpow x n] is [x ** n] for a literal exponent; [truthy] is
    Python's truth value of a float.  Operators that can raise return a
    [result]. *)
Class PyFloat (F : Type) : Type := {
  lit : Z -> F;
  fneg : F -> F;
  fadd : F -> F -> F;
  fsub : F -> F -> F;
  fmul : F -> F -> F;
  fdiv : F -> F -> result F;          (* x / y,  ZeroDivisionError *)
  fmod : F -> F -> result F;          (* x % y,  ZeroDivisionError *)
  fpow : F -> nat -> result F;        (* x ** n, OverflowError *)
  fabs : F -> F;
  fle : F -> F -> bool;               (* x <= y *)
  flt : F -> F -> bool;               (* x < y *)
  truthy : F -> bool;                 (* bool(x) *)
  math_radians : F -> F;
  math_degrees : F -> F;
  math_sin : F -> result F;
  math_cos : F -> result F;
  math_sqrt : F -> result F;
  math_asin : F -> result F;
  math_atan2 : F -> F -> result F
}.

(** ** aiaiail/main.py *)

Module Aiaiail.

(** The values Pillow stores under the GPS tags that the program reads: a
    tuple of numbers (a degree/minute/second triple, or a numerator and
    denominator pair), an int or float, a rational object (which behaves as
    the number it denotes and is neither a tuple, an int nor a float), or a
    string (a hemisphere reference). *)
Inductive exif_value (F : Type) : Type :=
| VTuple (xs : list F)
| VNumber (x : F)
| VRational (x : F)
| VString (s : string).
Arguments VTuple {F} xs.
Arguments VNumber {F} x.
Arguments VRational {F} x.
Arguments VString {F} s.

Section Engine.
Context {F : Type} `{PyFloat F}.

(** A photo record, the dict built by [scan_directory], lines 81-86. *)
Record photo : Type := Photo {
  filepath : string;
  latitude : F;
  longitude : F;
  direction : exif_value F
}.

(** [haversine(lon1, lat1, lon2, lat2)], lines 92-101.  The operands of the
    sum are evaluated left to right, as Python does. *)
Definition haversine (lon1 lat1 lon2 lat2 : F) : result F :=
  let lon1_rad := math_radians lon1 in
  let lat1_rad := math_radians lat1 in
  let lon2_rad := math_radians lon2 in
  let lat2_rad := math_radians lat2 in
  let dlon := fsub lon2_rad lon1_rad in
  let dlat := fsub lat2_rad lat1_rad in
  hlat ← fdiv dlat (lit 2);
  slat ← math_sin hlat;
  slat2 ← fpow slat 2;
  c1 ← math_cos lat1_rad;
  c2 ← math_cos lat2_rad;
  hlon ← fdiv dlon (lit 2);
  slon ← math_sin hlon;
  slon2 ← fpow slon 2;
  let a := fadd slat2 (fmul (fmul c1 c2) slon2) in
  q ← math_sqrt a;
  s ← math_asin q;
  let c := fmul (lit 2) s in
  let r := lit 6371 in
  Ok (fmul c r).

(** [compute_bearing(lat1, lon1, lat2, lon2)], lines 103-111. *)
Definition compute_bearing (lat1 lon1 lat2 lon2 : F) : result F :=
  let lat1_rad := math_radians lat1 in
  let lat2_rad := math_radians lat2 in
  let diffLong := math_radians (fsub lon2 lon1) in
  sd ← math_sin diffLong;
  c2 ← math_cos lat2_rad;
  let x := fmul sd c2 in
  c1 ← math_cos lat1_rad;
  s2 ← math_sin lat2_rad;
  s1 ← math_sin lat1_rad;
  c2' ← math_cos lat2_rad;
  cd ← math_cos diffLong;
  let y := fsub (fmul c1 s2) (fmul (fmul s1 c2') cd) in
  initial_bearing ← math_atan2 x y;
  fmod (fadd (math_degrees initial_bearing) (lit 360)) (lit 360).

(** [angle_difference(a1, a2)], lines 113-115. *)
Definition angle_difference (a1 a2 : F) : result F :=
  m ← fmod (fadd (fadd (fsub a2 a1) (lit 180)) (lit 360)) (lit 360);
  Ok (fsub m (lit 180)).

(** The body of the selection loop of [update_left_pane], lines 182-187:
    [None] when the photo is left out, the pair appended to
    [selected_photos] otherwise. *)
Definition select_photo (lat lng rotation : F) (p : photo)
  : result (option (F * photo)) :=
  distance ← haversine lng lat (longitude p) (latitude p);
  angle_to_photo ← compute_bearing lat lng (latitude p) (longitude p);
  angle_diff ← angle_difference rotation angle_to_photo;
  if fle (fabs angle_diff) (lit 30) then Ok (Some (distance, p)) else Ok None.

(** The loop itself, lines 180-187: the first exception ends the call. *)
Fixpoint selected_photos (lat lng rotation : F) (photo_list : list photo)
  : result (list (F * photo)) :=
  match photo_list with
  | [] => Ok []
  | p :: rest =>
      o ← select_photo lat lng rotation p;
      sel ← selected_photos lat lng rotation rest;
      Ok (match o with Some dp => dp :: sel | None => sel end)
  end.

(** [list.sort(key=lambda x: x[0])], line 190.  Python's sort is stable and
    compares keys with [<] only; on keys that [<] orders totally every such
    sort returns the same list, here computed by insertion. *)
Fixpoint insert_by_key (x : F * photo) (l : list (F * photo))
  : list (F * photo) :=
  match l with
  | [] => [x]
  | y :: l' => if flt (fst y) (fst x) then y :: insert_by_key x l' else x :: l
  end.

Definition sort_by_key (l : list (F * photo)) : list (F * photo) :=
  foldr insert_by_key [] l.

(** [update_left_pane(lat, lng, rotation)], lines 172-197, without the
    widgets: the value of [selected_photos] after the sort, which is the
    order in which the labels are added to the left pane. *)
Definition update_left_pane (photo_list : list photo) (lat lng rotation : F)
  : result (list (F * photo)) :=
  sel ← selected_photos lat lng rotation photo_list;
  Ok (sort_by_key sel).

End Engine.

Arguments photo F : clear implicits.
Arguments Photo {F} _ _ _ _.

Section Extractor.
Context {F : Type} `{PyFloat F}.

(** [value[i]] on a tuple. *)
Definition index (xs : list F) (i : nat) : result F :=
  match xs !! i with
  | Some x => Ok x
  | None => Raise IndexError
  end.

(** The inner [_convert_to_degrees(value)], lines 43-47.  A string can be
    indexed but its characters cannot be divided; a number cannot be
    indexed. *)
Definition _convert_to_degrees (value : exif_value F) : result F :=
  match value with
  | VTuple xs =>
      d ← index xs 0;
      m ← index xs 1;
      s ← index xs 2;
      qm ← fdiv m (lit 60);
      qs ← fdiv s (lit 3600);
      Ok (fadd (fadd d qm) qs)
  | VString str =>
      if decide (String.length str < 3)%nat then Raise IndexError
      else Raise TypeError
  | VNumber _ | VRational _ => Raise TypeError
  end.

(** [ref != "N"]: true unless the entry is that very string. *)
Definition differs (ref : exif_value F) (s : string) : bool :=
  match ref with
  | VString r => negb (String.eqb r s)
  | _ => true
  end.

(** Lines 60-64: the direction entry; a tuple is divided out, an int or a
    float becomes a float, anything else is kept as it is. *)
Definition img_direction (entry : option (exif_value F))
  : result (option (exif_value F)) :=
  match entry with
  | Some (VTuple xs) =>
      n ← index xs 0;
      d ← index xs 1;
      q ← fdiv n d;
      Ok (Some (VNumber q))
  | Some (VNumber x) => Ok (Some (VNumber x))
  | other => Ok other
  end.

(** [get_lat_lon_direction(exif_data)], lines 38-68, on the value of
    [exif_data.get("GPSInfo")].  A missing key inside the [try] block is a
    KeyError, which the [except] clause swallows: the function then returns
    what was assigned so far.  Other exceptions leave the function. *)
Definition get_lat_lon_direction (gps_info : option (gmap string (exif_value F)))
  : result (option F * option F * option (exif_value F)) :=
  match gps_info with
  | None => Ok (None, None, None)
  | Some g =>
      if decide (g = ∅) then Ok (None, None, None) else
      match g !! "GPSLatitude" with
      | None => Ok (None, None, None)
      | Some vlat =>
          lat ← _convert_to_degrees vlat;
          match g !! "GPSLatitudeRef" with
          | None => Ok (Some lat, None, None)
          | Some rlat =>
              let lat := if differs rlat "N" then fneg lat else lat in
              match g !! "GPSLongitude" with
              | None => Ok (Some lat, None, None)
              | Some vlon =>
                  lon ← _convert_to_degrees vlon;
                  match g !! "GPSLongitudeRef" with
                  | None => Ok (Some lat, Some lon, None)
                  | Some rlon =>
                      let lon := if differs rlon "E" then fneg lon else lon in
                      direction ← img_direction (g !! "GPSImgDirection");
                      Ok (Some lat, Some lon, direction)
                  end
              end
          end
      end
  end.

(** The body of the loop of [scan_directory], lines 75-89, for one JPEG
    file: [exif] is what [Image.open] and [get_exif_data] give for it (an
    exception when they fail).  Any exception is printed and the file is
    skipped. *)
Definition scan_file (filepath : string)
    (exif : result (option (gmap string (exif_value F))))
    (photo_list : list (photo F)) : list (photo F) :=
  match exif ≫= get_lat_lon_direction with
  | Ok (Some lat, Some lon, Some direction) =>
      photo_list ++ [Photo filepath lat lon direction]
  | _ => photo_list
  end.

Definition scan_directory
    (files : list (string * result (option (gmap string (exif_value F)))))
  : list (photo F) :=
  foldl (fun acc f => scan_file (fst f) (snd f) acc) [] files.

End Extractor.

End Aiaiail.

(** ** kivy/main.py *)

Module Kivy.

(** What the program reads of an exifread tag: its [values], a list of
    ratios (numerator and denominator) or a string. *)
Inductive tag_values : Type :=
| Ratios (rs : list (Z * Z))
| Ascii (s : string).

Section Extractor.
Context {F : Type} `{PyFloat F}.

(** [float(value.values[i].num) / float(value.values[i].den)]. *)
Definition ratio_at (value : tag_values) (i : nat) : result F :=
  match value with
  | Ratios rs =>
      match rs !! i with
      | Some (num, den) => fdiv (lit num) (lit den)
      | None => Raise IndexError
      end
  | Ascii s =>
      if decide (i < String.length s)%nat then Raise AttributeError
      else Raise IndexError
  end.

(** The inner [_convert_to_degrees(value)], lines 30-34. *)
Definition _convert_to_degrees (value : tag_values) : result F :=
  d ← ratio_at value 0;
  m ← ratio_at value 1;
  s ← ratio_at value 2;
  qm ← fdiv m (lit 60);
  qs ← fdiv s (lit 3600);
  Ok (fadd (fadd d qm) qs).

(** [ref.values[0] != s] for a tag that may be missing ([None] has no
    [values]). *)
Definition ref_differs (ref : option tag_values) (s : string) : result bool :=
  match ref with
  | None => Raise AttributeError
  | Some (Ascii r) =>
      match r with
      | EmptyString => Raise IndexError
      | String c _ => Ok (negb (String.eqb (String c EmptyString) s))
      end
  | Some (Ratios rs) =>
      match rs with
      | [] => Raise IndexError
      | _ :: _ => Ok true
      end
  end.

(** [get_decimal_coordinates(tags)], lines 29-51.  A tag object is true
    whenever it is present. *)
Definition get_decimal_coordinates (tags : gmap string tag_values)
  : result (option F * option F) :=
  let gps_latitude := tags !! "GPS GPSLatitude" in
  let gps_latitude_ref := tags !! "GPS GPSLatitudeRef" in
  let gps_longitude := tags !! "GPS GPSLongitude" in
  let gps_longitude_ref := tags !! "GPS GPSLongitudeRef" in
  match gps_latitude, gps_longitude with
  | Some vlat, Some vlon =>
      lat ← _convert_to_degrees vlat;
      lon ← _convert_to_degrees vlon;
      south ← ref_differs gps_latitude_ref "N";
      let lat := if (south : bool) then fneg lat else lat in
      west ← ref_differs gps_longitude_ref "E";
      let lon := if (west : bool) then fneg lon else lon in
      Ok (Some lat, Some lon)
  | _, _ => Ok (None, None)
  end.

(** [get_orientation(tags)], lines 55-59: an int divided by an int. *)
Definition get_orientation (tags : gmap string tag_values) : result (option F) :=
  match tags !! "GPS GPSImgDirection" with
  | None => Ok None
  | Some r => q ← ratio_at r 0; Ok (Some q)
  end.

(** An entry of [images], line 75. *)
Record image : Type := Image {
  path : string;
  latitude : option F;
  longitude : option F;
  orientation : option F
}.

(** Python's truth value of [lat] and of [lon]: [None] is false, a float is
    false when it is zero. *)
Definition truth (x : option F) : bool :=
  match x with
  | None => false
  | Some v => truthy v
  end.

(** The body of the loop of [scan_directory_for_images], lines 68-77, for
    one JPEG file with the tags [exifread.process_file] gives (an exception
    when opening or parsing fails).  Any exception is printed and the file
    is skipped. *)
Definition scan_file (filepath : string)
    (tags : result (gmap string tag_values)) (images : list image)
  : list image :=
  match
    (t ← tags;
     '(lat, lon) ← get_decimal_coordinates t;
     orientation ← get_orientation t;
     Ok (lat, lon, orientation))
  with
  | Ok (lat, lon, orientation) =>
      if truth lat && truth lon
      then images ++ [Image filepath lat lon orientation]
      else images
  | Raise _ => images
  end.

Definition scan_directory_for_images
    (files : list (string * result (gmap string tag_values))) : list image :=
  foldl (fun acc f => scan_file (fst f) (snd f) acc) [] files.

End Extractor.

Arguments image F : clear implicits.
Arguments Image {F} _ _ _ _.

End Kivy.

(** ** The window of aiaiail/main.py *)

Module MainWindow.

(** A [QLabel] of the left pane: the file its pixmap was loaded from and
    the width the pixmap was scaled to.  A file that cannot be loaded gives
    a null pixmap and no exception, so the label records the request. *)
Record label : Type := Label {
  pixmap_file : string;
  pixmap_width : Z
}.

Section Pane.
Context {F : Type} `{PyFloat F}.

(** Lines 174-177: the loop over [reversed(range(self.left_layout.count()))],
    the count being taken once, before the loop.  The layout is the list of
    its items, all of them labels, since [addWidget] of line 197 is all that
    fills it.  [itemAt(i)] beyond the end is [None], which has no [widget];
    [removeWidget] takes the item of the widget out of the layout. *)
Fixpoint clear_loop (n : nat) (left_layout : list label)
  : list label * result unit :=
  match n with
  | O => (left_layout, Ok tt)
  | S i =>
      match left_layout !! i with
      | None => (left_layout, Raise AttributeError)
      | Some widget_to_remove => clear_loop i (delete i left_layout)
      end
  end.

(** Lines 193-197: a label for each selected photo, added at the end. *)
Definition display (left_layout : list label)
    (selected_photos : list (F * Aiaiail.photo F)) : list label :=
  foldl (fun l dp => l ++ [Label (Aiaiail.filepath (snd dp)) 200])
        left_layout selected_photos.

(** [update_left_pane(self, lat, lng, rotation)], lines 172-197, with the
    widgets: the layout after the call, and the exception that ended the
    call if there was one. *)
Definition update_left_pane (photo_list : list (Aiaiail.photo F))
    (left_layout : list label) (lat lng rotation : F)
  : list label * result unit :=
  match clear_loop (length left_layout) left_layout with
  | (cleared, Raise e) => (cleared, Raise e)
  | (cleared, Ok _) =>
      match Aiaiail.update_left_pane photo_list lat lng rotation with
      | Raise e => (cleared, Raise e)
      | Ok selected_photos => (display cleared selected_photos, Ok tt)
      end
  end.

(** [on_map_changed(self, lat, lng, rotation)], lines 168-170. *)
Definition on_map_changed (photo_list : list (Aiaiail.photo F))
    (left_layout : list label) (lat lng rotation : F)
  : list label * result unit :=
  update_left_pane photo_list left_layout lat lng rotation.

(** What [main()], lines 256-265, does with the scanned photos: it exits
    with status 1 when there is none, and shows the window otherwise. *)
Inductive outcome : Type :=
| Exit (status : Z)
| Window (photo_list : list (Aiaiail.photo F)).

Definition main
    (files : list (string * result (option (gmap string (Aiaiail.exif_value F)))))
  : outcome :=
  match Aiaiail.scan_directory files with
  | [] => Exit 1
  | photo_list => Window photo_list
  end.

End Pane.

End MainWindow.

(** ** Exact arithmetic with the IEEE special values *)

(** A Python float read as the real number it stands for, or as one of the
    three special values.  Rounding and overflow are not part of this
    semantics, and zero has no sign. *)
Inductive xreal : Type :=
| Fin (r : R)
| PInf
| NInf
| NaN.

#[global] Instance xreal_eq_dec : EqDecision xreal.
Proof.
  intros x y. unfold Decision.
  destruct x as [a| | |], y as [b| | |];
    try (left; reflexivity); try (right; discriminate).
  destruct (Req_dec_T a b) as [->|Hab]; [left; reflexivity|].
  right. intros E. apply Hab. now inversion E.
Defined.

Module XReal.
Local Open Scope R_scope.

Definition is_inf (x : xreal) : bool :=
  match x with PInf | NInf => true | _ => false end.

Definition Rleb (x y : R) : bool := if Rle_dec x y then true else false.
Definition Rltb (x y : R) : bool := if Rlt_dec x y then true else false.
Definition Reqb (x y : R) : bool := if Req_dec_T x y then true else false.

(** The remainder with the sign of the divisor: for [m > 0] the value of
    Python's [x % m], in [[0, m)]. *)
Definition Rfmod (x m : R) : R := x - m * IZR (Zfloor (x / m)).

(** The angle of the point [(x, y)], in [(-PI, PI]]: C's [atan2(y, x)]. *)
Definition Ratan2 (y x : R) : R :=
  if Rlt_dec 0 x then atan (y / x)
  else if Rlt_dec x 0 then
    if Rle_dec 0 y then atan (y / x) + PI else atan (y / x) - PI
  else if Rlt_dec 0 y then PI / 2
  else if Rlt_dec y 0 then - (PI / 2)
  else 0.

Definition neg (x : xreal) : xreal :=
  match x with
  | Fin r => Fin (- r)
  | PInf => NInf
  | NInf => PInf
  | NaN => NaN
  end.

Definition add (x y : xreal) : xreal :=
  match x, y with
  | NaN, _ | _, NaN => NaN
  | Fin a, Fin b => Fin (a + b)
  | PInf, NInf | NInf, PInf => NaN
  | PInf, _ | _, PInf => PInf
  | NInf, _ | _, NInf => NInf
  end.

Definition sub (x y : xreal) : xreal := add x (neg y).

(** An infinity of the sign of [r], NaN for [r = 0]. *)
Definition inf_signed (r : R) : xreal :=
  if Rlt_dec 0 r then PInf else if Rlt_dec r 0 then NInf else NaN.

Definition mul (x y : xreal) : xreal :=
  match x, y with
  | NaN, _ | _, NaN => NaN
  | Fin a, Fin b => Fin (a * b)
  | PInf, Fin r | Fin r, PInf => inf_signed r
  | NInf, Fin r | Fin r, NInf => inf_signed (- r)
  | PInf, PInf | NInf, NInf => PInf
  | PInf, NInf | NInf, PInf => NInf
  end.

Definition is_zero (x : xreal) : bool :=
  match x with Fin r => Reqb r 0 | _ => false end.

(** [x / y]: Python raises for a zero divisor before it divides. *)
Definition div (x y : xreal) : result xreal :=
  if is_zero y then Raise ZeroDivisionError
  else Ok match x, y with
          | NaN, _ | _, NaN => NaN
          | Fin a, Fin b => Fin (a / b)
          | Fin _, _ => Fin 0
          | PInf, Fin r => inf_signed r
          | NInf, Fin r => inf_signed (- r)
          | _, _ => NaN
          end.

(** [x % y]: C's [fmod], then the sign of the divisor is given to the
    remainder (CPython's [float_rem]). *)
Definition modulo (x y : xreal) : result xreal :=
  if is_zero y then Raise ZeroDivisionError
  else Ok match x, y with
          | NaN, _ | _, NaN => NaN
          | Fin a, Fin m => Fin (Rfmod a m)
          | Fin a, PInf => if Rlt_dec a 0 then PInf else Fin a
          | Fin a, NInf => if Rlt_dec 0 a then NInf else Fin a
          | _, _ => NaN
          end.

(** [x ** n] for a literal [n]. *)
Definition pow (x : xreal) (n : nat) : result xreal :=
  Ok match x, n with
     | _, O => Fin 1
     | Fin a, _ => Fin (a ^ n)
     | PInf, _ => PInf
     | NInf, _ => if Nat.even n then PInf else NInf
     | NaN, _ => NaN
     end.

Definition abs (x : xreal) : xreal :=
  match x with
  | Fin r => Fin (Rabs r)
  | PInf | NInf => PInf
  | NaN => NaN
  end.

(** Comparisons: every comparison with NaN is false. *)
Definition le (x y : xreal) : bool :=
  match x, y with
  | NaN, _ | _, NaN => false
  | Fin a, Fin b => Rleb a b
  | NInf, _ | _, PInf => true
  | _, _ => false
  end.

Definition lt (x y : xreal) : bool :=
  match x, y with
  | NaN, _ | _, NaN => false
  | Fin a, Fin b => Rltb a b
  | PInf, _ | _, NInf => false
  | _, _ => true
  end.

(** [bool(x)]: false for zero only. *)
Definition truth (x : xreal) : bool := negb (is_zero x).

(** [math.radians] and [math.degrees] multiply by a constant. *)
Definition radians (x : xreal) : xreal := mul x (Fin (PI / 180)).
Definition degrees (x : xreal) : xreal := mul x (Fin (180 / PI)).

(** The [math] functions: a NaN argument gives NaN, and an argument
    outside the domain raises ValueError ("math domain error"). *)
Definition sin (x : xreal) : result xreal :=
  match x with
  | Fin r => Ok (Fin (Rtrigo_def.sin r))
  | NaN => Ok NaN
  | _ => Raise ValueError
  end.

Definition cos (x : xreal) : result xreal :=
  match x with
  | Fin r => Ok (Fin (Rtrigo_def.cos r))
  | NaN => Ok NaN
  | _ => Raise ValueError
  end.

Definition sqrt (x : xreal) : result xreal :=
  match x with
  | Fin r => if Rlt_dec r 0 then Raise ValueError else Ok (Fin (R_sqrt.sqrt r))
  | PInf => Ok PInf
  | NInf => Raise ValueError
  | NaN => Ok NaN
  end.

Definition asin (x : xreal) : result xreal :=
  match x with
  | Fin r => if Rlt_dec r (-1) then Raise ValueError
             else if Rlt_dec 1 r then Raise ValueError
             else Ok (Fin (Ratan.asin r))
  | NaN => Ok NaN
  | _ => Raise ValueError
  end.

Definition atan2 (y x : xreal) : result xreal :=
  Ok match y, x with
     | NaN, _ | _, NaN => NaN
     | Fin b, Fin a => Fin (Ratan2 b a)
     | Fin b, PInf => Fin 0
     | Fin b, NInf => if Rlt_dec b 0 then Fin (- PI) else Fin PI
     | PInf, Fin _ => Fin (PI / 2)
     | NInf, Fin _ => Fin (- (PI / 2))
     | PInf, PInf => Fin (PI / 4)
     | NInf, PInf => Fin (- (PI / 4))
     | PInf, NInf => Fin (3 * PI / 4)
     | NInf, NInf => Fin (- (3 * PI / 4))
     end.

(** The values the engine's functions take on finite arguments, as real
    expressions (see [haversine_fin] and [compute_bearing_fin] below). *)
Definition rad (x : R) : R := x * (PI / 180).

Definition hav_a (lon1 lat1 lon2 lat2 : R) : R :=
  Rtrigo_def.sin ((rad lat2 + - rad lat1) / 2) ^ 2
  + Rtrigo_def.cos (rad lat1) * Rtrigo_def.cos (rad lat2)
    * Rtrigo_def.sin ((rad lon2 + - rad lon1) / 2) ^ 2.

Definition bearing_x (lat1 lon1 lat2 lon2 : R) : R :=
  Rtrigo_def.sin (rad (lon2 + - lon1)) * Rtrigo_def.cos (rad lat2).

Definition bearing_y (lat1 lon1 lat2 lon2 : R) : R :=
  Rtrigo_def.cos (rad lat1) * Rtrigo_def.sin (rad lat2)
  + - (Rtrigo_def.sin (rad lat1) * Rtrigo_def.cos (rad lat2)
       * Rtrigo_def.cos (rad (lon2 + - lon1))).

Definition haversine_R (lon1 lat1 lon2 lat2 : R) : R :=
  2 * Ratan.asin (R_sqrt.sqrt (hav_a lon1 lat1 lon2 lat2)) * 6371.

Definition bearing_R (lat1 lon1 lat2 lon2 : R) : R :=
  Rfmod (Ratan2 (bearing_x lat1 lon1 lat2 lon2) (bearing_y lat1 lon1 lat2 lon2)
         * (180 / PI) + 360) 360.

Definition angle_difference_R (a1 a2 : R) : R :=
  Rfmod (a2 - a1 + 180 + 360) 360 - 180.

(** The unit vector of a point given by latitude and longitude in degrees;
    two coordinate pairs name the same point of the sphere when their
    vectors are equal. *)
Definition unit_vector (lat lon : R) : R * R * R :=
  (Rtrigo_def.cos (rad lat) * Rtrigo_def.cos (rad lon),
   Rtrigo_def.cos (rad lat) * Rtrigo_def.sin (rad lon),
   Rtrigo_def.sin (rad lat)).

Definition same_point (lat1 lon1 lat2 lon2 : R) : Prop :=
  unit_vector lat1 lon1 = unit_vector lat2 lon2.
End XReal.

(** The exact semantics as an instance of the interface.  It is an
    idealisation, not the arithmetic the program runs: Python's floats are
    binary64 ([Binary64.binary64] below), where every operation rounds, so
    that [cos (pi / 2)] is not zero and [x + 360] can lose the low digits of
    [x].  A statement proved at this instance says what the formulas of the
    code compute on real numbers and is worded so; what rounding changes is
    shown at [Binary64.binary64] by evaluation. *)
#[global] Instance xreal_float : PyFloat xreal := {|
  lit z := Fin (IZR z);
  fneg := XReal.neg;
  fadd := XReal.add;
  fsub := XReal.sub;
  fmul := XReal.mul;
  fdiv := XReal.div;
  fmod := XReal.modulo;
  fpow := XReal.pow;
  fabs := XReal.abs;
  fle := XReal.le;
  flt := XReal.lt;
  truthy := XReal.truth;
  math_radians := XReal.radians;
  math_degrees := XReal.degrees;
  math_sin := XReal.sin;
  math_cos := XReal.cos;
  math_sqrt := XReal.sqrt;
  math_asin := XReal.asin;
  math_atan2 := XReal.atan2
|}.

(** The records and viewpoints the statements below range over. *)
Definition is_fin (x : xreal) : bool :=
  match x with Fin _ => true | _ => false end.

(** The real number a finite value stands for. *)
Definition real (x : xreal) : R :=
  match x with Fin r => r | _ => 0%R end.

Definition finite_photo (p : Aiaiail.photo xreal) : Prop :=
  is_fin (Aiaiail.latitude p) = true /\ is_fin (Aiaiail.longitude p) = true.

Definition no_inf_photo (p : Aiaiail.photo xreal) : Prop :=
  XReal.is_inf (Aiaiail.latitude p) = false
  /\ XReal.is_inf (Aiaiail.longitude p) = false.

Definition nan_photo (p : Aiaiail.photo xreal) : Prop :=
  Aiaiail.latitude p = NaN \/ Aiaiail.longitude p = NaN.

(** The bearing from a finite viewpoint to a finite record, and its angular
    difference to the rotation, as real numbers. *)
Definition photo_bearing (lat lng : R) (p : Aiaiail.photo xreal) : R :=
  XReal.bearing_R lat lng (real (Aiaiail.latitude p)) (real (Aiaiail.longitude p)).

Definition photo_distance (lat lng : R) (p : Aiaiail.photo xreal) : R :=
  XReal.haversine_R lng lat (real (Aiaiail.longitude p)) (real (Aiaiail.latitude p)).


Definition fin_key (x : xreal * Aiaiail.photo xreal) : Prop :=
  is_fin (fst x) = true.


(** ** IEEE-754 double precision *)

(** Python's [float] is the C [double].  Addition, subtraction,
    multiplication, division, square root and the comparisons are the
    primitive operations of Rocq's [float]; the remaining functions of the C
    library ([sin], [cos], [asin], [atan2], [pow]) are not fixed by the
    standard to the last bit and are a parameter. *)
Module Binary64.
Import Floats.
Local Open Scope float_scope.

Record libm : Type := Libm {
  c_sin : float -> float;
  c_cos : float -> float;
  c_asin : float -> float;
  c_atan2 : float -> float -> float;
  c_pow : float -> float -> float
}.

(** [float(z)], correctly rounded for [|z| < 2^63]. *)
Definition of_int (z : Z) : float :=
  match z with
  | Z0 => zero
  | Zpos _ => of_uint63 (Uint63.of_Z z)
  | Zneg q => - of_uint63 (Uint63.of_Z (Zpos q))
  end.

Definition copysign (a y : float) : float :=
  if get_sign y then - abs a else abs a.

(** C's [fmod]: the remainder of the truncated division, which is exact. *)
Definition c_fmod (x y : float) : float :=
  match Prim2SF x, Prim2SF y with
  | S754_nan, _ | _, S754_nan => nan
  | S754_infinity _, _ => nan
  | _, S754_zero _ => nan
  | S754_zero _, _ => x
  | S754_finite _ _ _, S754_infinity _ => x
  | S754_finite sx mx ex, S754_finite _ my ey =>
      let e := Z.min ex ey in
      let r := ((Zpos mx * 2 ^ (ex - e)) mod (Zpos my * 2 ^ (ey - e)))%Z in
      let v := Z.ldexp (of_uint63 (Uint63.of_Z r)) e in
      if sx then - v else v
  end.

Definition div (x y : float) : result float :=
  if y =? 0 then Raise ZeroDivisionError else Ok (x / y).

(** CPython's [float_rem]. *)
Definition modulo (x y : float) : result float :=
  if y =? 0 then Raise ZeroDivisionError
  else
    let m := c_fmod x y in
    Ok (if negb (m =? 0)
        then if xorb (y <? 0) (m <? 0) then m + y else m
        else copysign 0 y).

(** CPython's [float_pow] for a literal exponent. *)
Definition pow (L : libm) (x : float) (n : nat) : result float :=
  match n with
  | O => Ok 1
  | _ =>
      if is_nan x then Ok x
      else if is_infinity x then Ok (if Nat.odd n then x else abs x)
      else if x =? 0 then Ok (if Nat.odd n then x else 0)
      else
        let negate := (x <? 0) && Nat.odd n in
        let v := abs x in
        if v =? 1 then Ok (if negate then -1 else 1)
        else
          let r := c_pow L v (of_int (Z.of_nat n)) in
          if is_infinity r then Raise OverflowError
          else Ok (if negate then - r else r)
  end.

(** CPython's [math_1]: the wrapper of the one-argument functions. *)
Definition math_1 (f : float -> float) (x : float) : result float :=
  let r := f x in
  if is_nan r && negb (is_nan x) then Raise ValueError
  else if is_infinity r && is_finite x then Raise ValueError
  else Ok r.

Definition pi : float := 0x1.921fb54442d18p+1.
Definition degToRad : float := pi / 180.
Definition radToDeg : float := 180 / pi.

(** CPython's [m_atan2] and its wrapper [math_2]. *)
Definition m_atan2 (L : libm) (y x : float) : float :=
  if is_nan x || is_nan y then nan
  else if is_infinity y then
    if is_infinity x then
      if get_sign x then copysign (0.75 * pi) y else copysign (0.25 * pi) y
    else copysign (0.5 * pi) y
  else if is_infinity x || (y =? 0) then
    if get_sign x then copysign pi y else copysign 0 y
  else c_atan2 L y x.

Definition atan2 (L : libm) (y x : float) : result float :=
  let r := m_atan2 L y x in
  if is_nan r && negb (is_nan y) && negb (is_nan x) then Raise ValueError
  else if is_infinity r && is_finite y && is_finite x then Raise OverflowError
  else Ok r.

Definition binary64 (L : libm) : PyFloat float := {|
  lit := of_int;
  fneg := PrimFloat.opp;
  fadd := PrimFloat.add;
  fsub := PrimFloat.sub;
  fmul := PrimFloat.mul;
  fdiv := div;
  fmod := modulo;
  fpow := pow L;
  fabs := PrimFloat.abs;
  fle := PrimFloat.leb;
  flt := PrimFloat.ltb;
  truthy x := negb (x =? 0);
  math_radians x := x * degToRad;
  math_degrees x := x * radToDeg;
  math_sin := math_1 (c_sin L);
  math_cos := math_1 (c_cos L);
  math_sqrt := math_1 PrimFloat.sqrt;
  math_asin := math_1 (c_asin L);
  math_atan2 := atan2 L
|}.

(** The values glibc 2.36 (x86-64) returns at the arguments that the
    examples below reach: [sin 0 = 0] and [cos 0 = 1], exact by C99 Annex F,
    and the arguments of [haversine(0.0, 45.0, 180.0, 135.0)], where each
    value is the correctly rounded one.  Elsewhere, and at NaN, the table
    answers NaN. *)
Definition glibc_sin (x : float) : float :=
  if x =? 0 then x
  else if x =? 0x1.921fb54442d18p-1 then 0x1.6a09e667f3bccp-1
  else if x =? 0x1.921fb54442d18p+0 then 1
  else nan.

Definition glibc_cos (x : float) : float :=
  if x =? 0 then 1
  else if x =? 0x1.921fb54442d18p-1 then 0x1.6a09e667f3bcdp-1
  else if x =? 0x1.2d97c7f3321d2p+1 then -0x1.6a09e667f3bccp-1
  else nan.

Definition glibc_pow (x y : float) : float :=
  if (x =? 0x1.6a09e667f3bccp-1) && (y =? 2) then 0x1.ffffffffffffep-2
  else nan.

Definition glibc_trace : libm := {|
  c_sin := glibc_sin;
  c_cos := glibc_cos;
  c_asin := fun _ => nan;
  c_atan2 := fun _ _ => nan;
  c_pow := glibc_pow
|}.

(** The values glibc 2.36 (x86-64) returns at the arguments that the
    distance and the bearing from the viewpoint (0, 0) to the point one
    degree east of it reach.  Elsewhere, and at NaN, the table answers
    NaN. *)
Definition east_sin (x : float) : float :=
  if x =? 0 then x
  else if x =? 0x1.1df46a2529d39p-6 then 0x1.1df0b2b89dd1ep-6
  else if x =? 0x1.1df46a2529d39p-7 then 0x1.1df37c4954c21p-7
  else nan.

Definition east_cos (x : float) : float :=
  if x =? 0 then 1
  else if x =? 0x1.1df46a2529d39p-6 then 0x1.ffec097f5af8ap-1
  else nan.

Definition east_asin (x : float) : float :=
  if x =? 0x1.1df37c4954c21p-7 then 0x1.1df46a2529d39p-7 else nan.

Definition east_atan2 (y x : float) : float :=
  if (y =? 0x1.1df0b2b89dd1ep-6) && (x =? 0) then 0x1.921fb54442d18p+0 else nan.

Definition east_pow (x y : float) : float :=
  if (x =? 0x1.1df37c4954c21p-7) && (y =? 2) then 0x1.3f680a5076462p-14
  else nan.

Definition glibc_east : libm := {|
  c_sin := east_sin;
  c_cos := east_cos;
  c_asin := east_asin;
  c_atan2 := east_atan2;
  c_pow := east_pow
|}.

(** A C library whose sine and cosine answer NaN at NaN, as C99 Annex F
    asks.  Rocq's [float] has one NaN. *)
Definition nan_preserving (L : libm) : Prop :=
  c_sin L nan = nan /\ c_cos L nan = nan.

End Binary64.

(** ** Sample records *)

(** Scenarios 1 and 2 of the spec: a record one degree east of the
    viewpoint (0, 0); and a record whose latitude is NaN. *)
Definition east_photo : Aiaiail.photo xreal :=
  Aiaiail.Photo "east.jpg" (Fin 0) (Fin 1) (Aiaiail.VNumber (Fin 90)).

Definition nan_photo_x : Aiaiail.photo xreal :=
  Aiaiail.Photo "nan.jpg" NaN (Fin 0) (Aiaiail.VNumber (Fin 0)).

(** A record at latitude 135, longitude 180: the point of latitude 45,
    longitude 0, written with a latitude beyond the pole. *)
Definition beyond_pole_b : Aiaiail.photo PrimFloat.float :=
  Aiaiail.Photo "pole.jpg" (Binary64.of_int 135) (Binary64.of_int 180)
    (Aiaiail.VNumber (Binary64.of_int 0)).

Definition nan_photo_b : Aiaiail.photo PrimFloat.float :=
  Aiaiail.Photo "nan.jpg" PrimFloat.nan (Binary64.of_int 0)
    (Aiaiail.VNumber (Binary64.of_int 0)).

(** The record one degree east of the viewpoint (0, 0), in double
    precision. *)
Definition east_photo_b : Aiaiail.photo PrimFloat.float :=
  Aiaiail.Photo "east.jpg" (Binary64.of_int 0) (Binary64.of_int 1)
    (Aiaiail.VNumber (Binary64.of_int 90)).

(** A record with a NaN coordinate, in double precision. *)
Definition nan_photo_f (p : Aiaiail.photo PrimFloat.float) : Prop :=
  Aiaiail.latitude p = PrimFloat.nan \/ Aiaiail.longitude p = PrimFloat.nan.

(** Decimal degrees of a degree/minute/second triple, and the sign that a
    hemisphere reference gives it. *)
Definition dms (d m s : R) : R := (d + m / 60 + s / 3600)%R.

Definition hemisphere (ref positive : string) (v : R) : R :=
  if String.eqb ref positive then v else (- v)%R.

(** [ref[0]] of a non-empty string, as a string. *)
Definition first_char (ref : string) : string :=
  match ref with
  | EmptyString => EmptyString
  | String c _ => String c EmptyString
  end.

(** GPS metadata of a photo taken at 50 deg 5' 15" N, 14 deg 25' 30" E,
    heading 90, as Pillow gives it. *)
Definition sample_gps : gmap string (Aiaiail.exif_value xreal) :=
  <["GPSLatitude" := Aiaiail.VTuple [Fin 50; Fin 5; Fin 15]]>
  (<["GPSLatitudeRef" := Aiaiail.VString "N"]>
  (<["GPSLongitude" := Aiaiail.VTuple [Fin 14; Fin 25; Fin 30]]>
  (<["GPSLongitudeRef" := Aiaiail.VString "E"]>
  (<["GPSImgDirection" := Aiaiail.VRational (Fin 90)]> ∅)))).

(** The tags of a photo taken on the equator, at 0 deg 0' 0" N,
    10 deg 0' 0" E, as exifread gives them. *)
Definition equator_tags : gmap string Kivy.tag_values :=
  <["GPS GPSLatitude" := Kivy.Ratios [(0, 1); (0, 1); (0, 1)]%Z]>
  (<["GPS GPSLatitudeRef" := Kivy.Ascii "N"]>
  (<["GPS GPSLongitude" := Kivy.Ratios [(10, 1); (0, 1); (0, 1)]%Z]>
  (<["GPS GPSLongitudeRef" := Kivy.Ascii "E"]> ∅))).

(** GPS metadata like [sample_gps], with the direction given as the pair
    (90, 0): a denominator of zero. *)
Definition zero_denominator_gps : gmap string (Aiaiail.exif_value xreal) :=
  <["GPSImgDirection" := Aiaiail.VTuple [Fin 90; Fin 0]]> sample_gps.

(** The tags of a photo taken at 50 deg 5' 15" N, 14 deg 25' 30" E, without
    a direction, as exifread gives them. *)
Definition prague_tags : gmap string Kivy.tag_values :=
  <["GPS GPSLatitude" := Kivy.Ratios [(50, 1); (5, 1); (15, 1)]%Z]>
  (<["GPS GPSLatitudeRef" := Kivy.Ascii "N"]>
  (<["GPS GPSLongitude" := Kivy.Ratios [(14, 1); (25, 1); (30, 1)]%Z]>
  (<["GPS GPSLongitudeRef" := Kivy.Ascii "E"]> ∅))).

(** ** Facts about the exact semantics *)

Section XRealFacts.
Local Open Scope R_scope.
Import XReal Aiaiail.

Lemma Rfmod_bound (x m : R) : 0 < m -> 0 <= Rfmod x m < m.
Proof.
  intros Hm. unfold Rfmod.
  destruct (Zfloor_bound (x / m)) as [Hlo Hhi].
  assert (Hx : x = x / m * m) by (field; lra).
  set (q := x / m) in *. set (k := IZR (Zfloor q)) in *.
  rewrite Hx at 1 2. split; nra.
Qed.

(** The remainder of [k * m + r] is [r] when [r] is already reduced. *)
Lemma Rfmod_eq (x m r : R) (k : Z) :
  0 < m -> 0 <= r < m -> x = IZR k * m + r -> Rfmod x m = r.
Proof.
  intros Hm Hr ->. unfold Rfmod.
  assert (Hq : (IZR k * m + r) / m = IZR k + r / m) by (field; lra).
  rewrite Hq.
  assert (Hrm : 0 <= r / m < 1).
  { split.
    - apply Rmult_le_pos; [lra|]. left. now apply Rinv_0_lt_compat.
    - apply (Rmult_lt_reg_r m); [lra|]. unfold Rdiv.
      rewrite Rmult_assoc, Rinv_l by lra. lra. }
  rewrite (Zfloor_eq k) by lra. lra.
Qed.

Lemma Rfmod_period (x m : R) (k : Z) :
  0 < m -> Rfmod (x + IZR k * m) m = Rfmod x m.
Proof.
  intros Hm. unfold Rfmod.
  assert (Hq : (x + IZR k * m) / m = x / m + IZR k) by (field; lra).
  rewrite Hq, Zfloor_addz, plus_IZR. lra.
Qed.

Lemma is_zero_lit (z : Z) : z <> 0%Z -> is_zero (Fin (IZR z)) = false.
Proof.
  intros Hz. unfold is_zero, Reqb.
  destruct (Req_dec_T (IZR z) 0) as [E|E]; [|reflexivity].
  apply eq_IZR_R0 in E. contradiction.
Qed.

Lemma is_zero_lit_0 : is_zero (Fin 0) = true.
Proof.
  unfold is_zero, Reqb. destruct (Req_dec_T 0 0) as [_|E]; [reflexivity | now elim E].
Qed.

Lemma div_fin (a : R) (z : Z) :
  z <> 0%Z -> div (Fin a) (Fin (IZR z)) = Ok (Fin (a / IZR z)).
Proof. intros Hz. unfold div. now rewrite is_zero_lit. Qed.

Lemma modulo_fin (a : R) (z : Z) :
  z <> 0%Z -> modulo (Fin a) (Fin (IZR z)) = Ok (Fin (Rfmod a (IZR z))).
Proof. intros Hz. unfold modulo. now rewrite is_zero_lit. Qed.

(** [angle_difference] on finite angles, as a real function. *)
Lemma angle_difference_fin (a1 a2 : R) :
  angle_difference (Fin a1) (Fin a2) = Ok (Fin (angle_difference_R a1 a2)).
Proof.
  unfold angle_difference. cbn.
  rewrite modulo_fin by discriminate. reflexivity.
Qed.

End XRealFacts.

(** *** The haversine intermediate lies in [[0, 1]] *)

Section Haversine.
Local Open Scope R_scope.
Import Aiaiail.
Local Abbreviation rad := XReal.rad.
Local Abbreviation hav_a := XReal.hav_a.

(** [cos a * cos b = 1 - sin^2 ((b - a) / 2) - sin^2 ((a + b) / 2)]. *)
Lemma cos_cos_half (a b : R) :
  cos a * cos b = 1 - sin ((b + - a) / 2) ^ 2 - sin ((a + b) / 2) ^ 2.
Proof.
  set (u := (b + - a) / 2). set (v := (a + b) / 2).
  replace a with (v - u) by (unfold u, v; field).
  replace b with (v + u) by (unfold u, v; field).
  rewrite cos_minus, cos_plus.
  pose proof (sin2_cos2 u) as Hu. pose proof (sin2_cos2 v) as Hv.
  unfold Rsqr in Hu, Hv. nra.
Qed.

Lemma sin_sqr_bound (x : R) : 0 <= sin x ^ 2 <= 1.
Proof.
  pose proof (sin2_cos2 x) as Hx. unfold Rsqr in Hx.
  pose proof (pow2_ge_0 (sin x)). pose proof (pow2_ge_0 (cos x)).
  split; [assumption|]. simpl in *. nra.
Qed.

Lemma hav_a_bound (lon1 lat1 lon2 lat2 : R) :
  0 <= hav_a lon1 lat1 lon2 lat2 <= 1.
Proof.
  unfold XReal.hav_a. rewrite cos_cos_half.
  pose proof (sin_sqr_bound ((rad lat2 + - rad lat1) / 2)) as Hu.
  pose proof (sin_sqr_bound ((rad lat1 + rad lat2) / 2)) as Hv.
  pose proof (sin_sqr_bound ((rad lon2 + - rad lon1) / 2)) as Ht.
  set (su := sin ((rad lat2 + - rad lat1) / 2) ^ 2) in *.
  set (sv := sin ((rad lat1 + rad lat2) / 2) ^ 2) in *.
  set (t := sin ((rad lon2 + - rad lon1) / 2) ^ 2) in *.
  split; nra.
Qed.

Lemma sqrt_unit (a : R) : 0 <= a <= 1 -> 0 <= sqrt a <= 1.
Proof.
  intros [H0 H1]. split; [apply sqrt_pos|].
  rewrite <- sqrt_1. now apply sqrt_le_1_alt.
Qed.

(** On finite arguments [haversine] raises nothing and returns
    [2 * asin (sqrt a) * 6371]. *)
Lemma haversine_fin (lon1 lat1 lon2 lat2 : R) :
  haversine (Fin lon1) (Fin lat1) (Fin lon2) (Fin lat2)
  = Ok (Fin (XReal.haversine_R lon1 lat1 lon2 lat2)).
Proof.
  pose proof (hav_a_bound lon1 lat1 lon2 lat2) as Ha.
  pose proof (sqrt_unit _ Ha) as Hq.
  unfold haversine. cbn.
  rewrite !div_fin by discriminate. cbn.
  fold (rad lat1) (rad lat2) (rad lon1) (rad lon2).
  change (sin ((rad lat2 + - rad lat1) / 2) * (sin ((rad lat2 + - rad lat1) / 2) * 1)
          + cos (rad lat1) * cos (rad lat2)
            * (sin ((rad lon2 + - rad lon1) / 2) * (sin ((rad lon2 + - rad lon1) / 2) * 1)))
    with (hav_a lon1 lat1 lon2 lat2).
  destruct (Rlt_dec _ 0); [lra|]. cbn.
  destruct (Rlt_dec _ (-1)); [lra|]. destruct (Rlt_dec 1 _); [lra|].
  reflexivity.
Qed.

End Haversine.

(** *** Bearing and angular difference on finite arguments *)

Section Bearing.
Local Open Scope R_scope.
Import Aiaiail.
Local Abbreviation Rfmod := XReal.Rfmod.

(** On finite arguments [compute_bearing] raises nothing and returns the
    angle of [(y, x)], in degrees, reduced modulo 360. *)
Lemma compute_bearing_fin (lat1 lon1 lat2 lon2 : R) :
  compute_bearing (Fin lat1) (Fin lon1) (Fin lat2) (Fin lon2)
  = Ok (Fin (XReal.bearing_R lat1 lon1 lat2 lon2)).
Proof.
  unfold compute_bearing. cbn.
  rewrite modulo_fin by discriminate. reflexivity.
Qed.


Lemma angle_difference_bound (a1 a2 : R) :
  -180 <= XReal.angle_difference_R a1 a2 < 180.
Proof.
  unfold XReal.angle_difference_R.
  pose proof (Rfmod_bound (a2 - a1 + 180 + 360) 360 ltac:(lra)). lra.
Qed.

(** Angles that differ by a multiple of 360 degrees: difference 0. *)
Lemma angle_difference_same (a1 a2 : R) (k : Z) :
  a2 = a1 + 360 * IZR k -> XReal.angle_difference_R a1 a2 = 0.
Proof.
  intros ->. unfold XReal.angle_difference_R.
  rewrite (Rfmod_eq _ 360 180 (k + 1)); [lra | lra | lra |].
  rewrite plus_IZR. lra.
Qed.

(** Opposite directions: difference -180. *)
Lemma angle_difference_opposite (a1 a2 : R) (k : Z) :
  a2 = a1 + 180 + 360 * IZR k -> XReal.angle_difference_R a1 a2 = -180.
Proof.
  intros ->. unfold XReal.angle_difference_R.
  rewrite (Rfmod_eq _ 360 0 (k + 2)); [lra | lra | lra |].
  rewrite plus_IZR. lra.
Qed.

(** The angular difference does not see whole turns of the first angle. *)
Lemma angle_difference_turns (a1 a2 : R) (k : Z) :
  XReal.angle_difference_R (a1 + 360 * IZR k) a2 = XReal.angle_difference_R a1 a2.
Proof.
  unfold XReal.angle_difference_R. f_equal.
  replace (a2 - (a1 + 360 * IZR k) + 180 + 360)
    with (a2 - a1 + 180 + 360 + IZR (- k) * 360) by (rewrite opp_IZR; ring).
  apply Rfmod_period. lra.
Qed.

End Bearing.

(** *** One record against the cone *)

Section SelectPhoto.
Local Open Scope R_scope.
Import Aiaiail.

Lemma select_photo_fin (lat lng rot plat plon : R) fp dir :
  select_photo (Fin lat) (Fin lng) (Fin rot) (Photo fp (Fin plat) (Fin plon) dir)
  = Ok (if Rle_dec (Rabs (XReal.angle_difference_R rot (XReal.bearing_R lat lng plat plon))) 30
        then Some (Fin (XReal.haversine_R lng lat plon plat),
                   Photo fp (Fin plat) (Fin plon) dir)
        else None).
Proof.
  unfold select_photo. cbn [latitude longitude].
  rewrite haversine_fin, compute_bearing_fin. cbn [mbind result_bind bind].
  rewrite angle_difference_fin. cbn. unfold XReal.Rleb.
  now destruct (Rle_dec _ 30).
Qed.

Lemma angle_difference_nan (rot : xreal) : angle_difference rot NaN = Ok NaN.
Proof.
  unfold angle_difference. cbn. unfold XReal.modulo.
  rewrite is_zero_lit by discriminate. now destruct rot.
Qed.

Lemma haversine_nan (lon1 lat1 lon2 lat2 : xreal) :
  XReal.is_inf lon1 = false -> XReal.is_inf lat1 = false ->
  XReal.is_inf lon2 = false -> XReal.is_inf lat2 = false ->
  lon1 = NaN \/ lat1 = NaN \/ lon2 = NaN \/ lat2 = NaN ->
  haversine lon1 lat1 lon2 lat2 = Ok NaN.
Proof.
  intros H1 H2 H3 H4 Hnan.
  destruct lon1, lat1, lon2, lat2; try discriminate;
    try (exfalso; clear - Hnan; intuition discriminate);
    unfold haversine; cbn; unfold XReal.div;
    rewrite ?is_zero_lit by discriminate; reflexivity.
Qed.

Lemma compute_bearing_nan (lat1 lon1 lat2 lon2 : xreal) :
  XReal.is_inf lon1 = false -> XReal.is_inf lat1 = false ->
  XReal.is_inf lon2 = false -> XReal.is_inf lat2 = false ->
  lon1 = NaN \/ lat1 = NaN \/ lon2 = NaN \/ lat2 = NaN ->
  compute_bearing lat1 lon1 lat2 lon2 = Ok NaN.
Proof.
  intros H1 H2 H3 H4 Hnan.
  destruct lon1, lat1, lon2, lat2; try discriminate;
    try (exfalso; clear - Hnan; intuition discriminate);
    unfold compute_bearing; cbn; unfold XReal.modulo;
    rewrite ?is_zero_lit by discriminate; reflexivity.
Qed.

(** A NaN coordinate, of the viewpoint or of the record, leaves the record
    out, without any exception. *)
Lemma select_photo_nan (lat lng rot : xreal) (p : photo xreal) :
  XReal.is_inf lat = false -> XReal.is_inf lng = false ->
  XReal.is_inf (latitude p) = false -> XReal.is_inf (longitude p) = false ->
  lat = NaN \/ lng = NaN \/ latitude p = NaN \/ longitude p = NaN ->
  select_photo lat lng rot p = Ok None.
Proof.
  intros H1 H2 H3 H4 Hnan. unfold select_photo.
  rewrite haversine_nan by tauto.
  rewrite compute_bearing_nan by tauto.
  cbn [mbind result_bind bind]. rewrite angle_difference_nan. reflexivity.
Qed.

End SelectPhoto.

(** *** The loop and the sort, for any semantics of [float] *)

Section Selection.
Context {F : Type} `{PyFloat F}.
Import Aiaiail.

Lemma select_photo_same (lat lng rot : F) (p q : photo F) (d : F) :
  select_photo lat lng rot p = Ok (Some (d, q)) -> q = p.
Proof.
  unfold select_photo. intros E.
  destruct (haversine _ _ _ _) as [dist|]; [|discriminate].
  destruct (compute_bearing _ _ _ _) as [b|]; [|discriminate].
  cbn in E. destruct (angle_difference rot b) as [diff|]; [|discriminate].
  cbn in E. destruct (fle _ _); congruence.
Qed.

Lemma selected_photos_cons (lat lng rot : F) (p : photo F) (l : list (photo F)) :
  selected_photos lat lng rot (p :: l)
  = (o ← select_photo lat lng rot p;
     sel ← selected_photos lat lng rot l;
     Ok (match o with Some dp => dp :: sel | None => sel end)).
Proof. reflexivity. Qed.

(** What the loop appends: exactly the records that pass the test. *)
Lemma selected_photos_In (lat lng rot : F) (l : list (photo F)) sel :
  selected_photos lat lng rot l = Ok sel ->
  forall dp, In dp sel <->
             exists p, In p l /\ select_photo lat lng rot p = Ok (Some dp).
Proof.
  revert sel. induction l as [|p l IH]; intros sel E dp.
  - injection E as <-. split; [intros [] | intros (p & [] & _)].
  - cbn in E. destruct (select_photo lat lng rot p) as [o|] eqn:Ep; [|discriminate].
    destruct (selected_photos lat lng rot l) as [sel'|]; [|discriminate].
    cbn in E. injection E as <-. specialize (IH sel' eq_refl dp).
    destruct o as [dq|]; cbn; rewrite ?IH; split.
    + intros [<-|(q & Hq & Eq)]; [exists p | exists q]; auto.
    + intros (q & [<-|Hq] & Eq); [left; congruence | right; eauto].
    + intros (q & Hq & Eq). eauto.
    + intros (q & [<-|Hq] & Eq); [congruence | eauto].
Qed.

(** The loop keeps the records in the order of [photo_list]. *)
Lemma selected_photos_sublist (lat lng rot : F) (l : list (photo F)) sel :
  selected_photos lat lng rot l = Ok sel -> sublist (map snd sel) l.
Proof.
  revert sel. induction l as [|p l IH]; intros sel E.
  - injection E as <-. constructor.
  - cbn in E. destruct (select_photo lat lng rot p) as [o|] eqn:Ep; [|discriminate].
    destruct (selected_photos lat lng rot l) as [sel'|]; [|discriminate].
    cbn in E. injection E as <-. specialize (IH sel' eq_refl).
    destruct o as [[d q]|].
    + apply select_photo_same in Ep as ->. cbn. now constructor.
    + now constructor.
Qed.

Lemma insert_by_key_Permutation (x : F * photo F) l :
  Permutation (insert_by_key x l) (x :: l).
Proof.
  induction l as [|y l IH]; cbn; [reflexivity|].
  destruct (flt (fst y) (fst x)); [|reflexivity].
  rewrite IH. apply perm_swap.
Qed.

Lemma sort_by_key_cons (x : F * photo F) l :
  sort_by_key (x :: l) = insert_by_key x (sort_by_key l).
Proof. reflexivity. Qed.

Lemma sort_by_key_Permutation (l : list (F * photo F)) :
  Permutation (sort_by_key l) l.
Proof.
  induction l as [|x l IH]; [reflexivity|].
  rewrite sort_by_key_cons, insert_by_key_Permutation. now constructor.
Qed.

End Selection.

(** *** The sort on real keys *)

Section Sorting.
Local Open Scope R_scope.
Import Aiaiail.









End Sorting.

(** ** The angular difference (spec section 4.2, step 3) *)

Section AngleDifference.
Local Open Scope R_scope.
Import Aiaiail.

(** C1, as stated, does not hold: a bearing opposite to the rotation gives
    exactly -180, which lies outside the interval (-180, 180].  In exact
    arithmetic and in double precision alike,
    [angle_difference(0, 180) = 720 % 360 - 180 = -180]. *)
Lemma angle_difference_reaches_minus_180 :
  angle_difference (Fin 0) (Fin 180) = Ok (Fin (-180))
  /\ ~ (-180 < -180 <= 180)
  /\ @angle_difference _ (Binary64.binary64 Binary64.glibc_trace)
       (Binary64.of_int 0) (Binary64.of_int 180) = Ok (Binary64.of_int (-180)).
Proof.
  split; [|split].
  - rewrite angle_difference_fin. do 2 f_equal.
    apply (angle_difference_opposite 0 180 0). lra.
  - lra.
  - vm_compute. reflexivity.
Qed.

(** C1, amended: for all real angles [a1] and [a2],
    [angle_difference(a1, a2)] is [((a2 - a1 + 180 + 360) mod 360) - 180],
    it lies in the half-open interval [-180, 180) -- closed at -180, open
    at 180 -- and [angle_difference(a, a) = 0]. *)
Theorem angle_difference_range (a1 a2 : R) :
  exists d : R,
    angle_difference (Fin a1) (Fin a2) = Ok (Fin d)
    /\ d = XReal.Rfmod (a2 - a1 + 180 + 360) 360 - 180
    /\ -180 <= d < 180
    /\ angle_difference (Fin a1) (Fin a1) = Ok (Fin 0).
Proof.
  exists (XReal.angle_difference_R a1 a2).
  split; [apply angle_difference_fin|]. split; [reflexivity|].
  split; [apply angle_difference_bound|].
  rewrite angle_difference_fin. do 2 f_equal.
  apply (angle_difference_same a1 a1 0). lra.
Qed.

(** Whole turns of the rotation are not seen, whatever the bearing is. *)
Lemma angle_difference_mod_360 (r : R) (b : xreal) :
  angle_difference (Fin (XReal.Rfmod r 360)) b = angle_difference (Fin r) b.
Proof.
  destruct b as [b| | |]; try reflexivity.
  rewrite !angle_difference_fin. do 2 f_equal.
  rewrite <- (angle_difference_turns (XReal.Rfmod r 360) b (Zfloor (r / 360))).
  f_equal. unfold XReal.Rfmod. ring.
Qed.

End AngleDifference.

(** ** The bearing (spec section 4.2, step 2) *)

Section BearingRange.
Local Open Scope R_scope.
Import Aiaiail.


End BearingRange.

(** ** The selection as a whole *)

Section SelectionTotal.
Local Open Scope R_scope.
Import Aiaiail.

(** A rotation that is not finite selects nothing. *)
Lemma angle_difference_not_fin (rot : xreal) (b : R) :
  is_fin rot = false -> angle_difference rot (Fin b) = Ok NaN.
Proof.
  intros Hrot. unfold angle_difference. cbn. unfold XReal.modulo.
  rewrite is_zero_lit by discriminate. now destruct rot.
Qed.

(** Without infinite coordinates a record raises nothing, and a record that
    is selected has finite coordinates, seen from a finite viewpoint, and a
    finite distance as its key. *)
Lemma select_photo_no_inf (lat lng rot : xreal) (p : photo xreal) :
  XReal.is_inf lat = false -> XReal.is_inf lng = false -> no_inf_photo p ->
  exists o, select_photo lat lng rot p = Ok o
            /\ forall dp, o = Some dp ->
                 fin_key dp /\ finite_photo p
                 /\ is_fin lat = true /\ is_fin lng = true /\ is_fin rot = true.
Proof.
  intros Hlat Hlng [Hplat Hplon].
  destruct (decide (lat = NaN \/ lng = NaN \/ latitude p = NaN \/ longitude p = NaN))
    as [Hnan|Hfin].
  - exists None. split; [now apply select_photo_nan | discriminate].
  - destruct p as [fp plat plon dir]. cbn in Hplat, Hplon, Hfin.
    destruct lat as [lat| | |]; try discriminate; [|tauto].
    destruct lng as [lng| | |]; try discriminate; [|tauto].
    destruct plat as [plat| | |]; try discriminate; [|tauto].
    destruct plon as [plon| | |]; try discriminate; [|tauto].
    destruct (is_fin rot) eqn:Hrot.
    + destruct rot as [rot| | |]; try discriminate.
      eexists. split; [apply select_photo_fin|].
      intros dp. destruct (Rle_dec _ 30); [|discriminate].
      intros [= <-]. repeat split.
    + exists None. split; [|discriminate].
      unfold select_photo. cbn [latitude longitude].
      rewrite haversine_fin, compute_bearing_fin. cbn [mbind result_bind bind].
      now rewrite angle_difference_not_fin.
Qed.

Lemma selected_photos_no_inf (lat lng rot : xreal) (l : list (photo xreal)) :
  XReal.is_inf lat = false -> XReal.is_inf lng = false -> Forall no_inf_photo l ->
  exists sel, selected_photos lat lng rot l = Ok sel /\ Forall fin_key sel.
Proof.
  intros Hlat Hlng Hl. induction Hl as [|p l Hp Hl (sel & E & Hsel)].
  - exists []. split; [reflexivity | constructor].
  - destruct (select_photo_no_inf lat lng rot p Hlat Hlng Hp) as (o & Eo & Ho).
    rewrite selected_photos_cons, Eo, E. cbn [mbind result_bind bind].
    eexists. split; [reflexivity|].
    destruct o as [dp|]; [|assumption].
    constructor; [|assumption]. now apply (Ho dp).
Qed.

(** Decides the comparisons of constants that infinite arguments lead to. *)
Ltac decide_const :=
  repeat match goal with
         | |- context [Rlt_dec ?a ?b] =>
             destruct (Rlt_dec a b); try (exfalso; pose proof PI_RGT_0; nra)
         end.

Ltac settle_special :=
  cbn; unfold XReal.div, XReal.modulo, XReal.inf_signed;
  rewrite ?is_zero_lit by discriminate;
  decide_const; cbn;
  first [ left; reflexivity | right; eexists; reflexivity ].

(** With an infinite coordinate the distance is NaN or an exception, and so
    is the bearing. *)
Lemma haversine_inf (lon1 lat1 lon2 lat2 : xreal) :
  XReal.is_inf lon1 || XReal.is_inf lat1 || XReal.is_inf lon2 || XReal.is_inf lat2
  = true ->
  haversine lon1 lat1 lon2 lat2 = Ok NaN \/ raises (haversine lon1 lat1 lon2 lat2).
Proof.
  unfold raises, haversine.
  destruct lon1, lat1, lon2, lat2; cbn [XReal.is_inf orb]; try discriminate; intros _.
  all: settle_special.
Qed.

Lemma compute_bearing_inf (lat1 lon1 lat2 lon2 : xreal) :
  XReal.is_inf lon1 || XReal.is_inf lat1 || XReal.is_inf lon2 || XReal.is_inf lat2
  = true ->
  compute_bearing lat1 lon1 lat2 lon2 = Ok NaN
  \/ raises (compute_bearing lat1 lon1 lat2 lon2).
Proof.
  unfold raises, compute_bearing.
  destruct lon1, lat1, lon2, lat2; cbn [XReal.is_inf orb]; try discriminate; intros _.
  all: settle_special.
Qed.

Lemma select_photo_inf (lat lng rot : xreal) (p : photo xreal) dp :
  XReal.is_inf lng || XReal.is_inf lat
  || XReal.is_inf (longitude p) || XReal.is_inf (latitude p) = true ->
  select_photo lat lng rot p <> Ok (Some dp).
Proof.
  intros Hinf. unfold select_photo.
  destruct (haversine_inf lng lat (longitude p) (latitude p) Hinf) as [-> | [e ->]];
    [|discriminate].
  destruct (compute_bearing_inf lat lng (latitude p) (longitude p)) as [-> | [e ->]];
    [| |discriminate].
  { rewrite <- Hinf. now destruct lng, lat, (longitude p), (latitude p). }
  cbn [mbind result_bind bind]. rewrite angle_difference_nan. discriminate.
Qed.



Lemma finite_no_inf (p : photo xreal) : finite_photo p -> no_inf_photo p.
Proof.
  intros [H1 H2]. split.
  - now destruct (latitude p).
  - now destruct (longitude p).
Qed.

End SelectionTotal.

(** ** Facts about double precision *)

Section FloatFacts.
Import Aiaiail.

Lemma Prim2SF_nan : FloatOps.Prim2SF PrimFloat.nan = SpecFloat.S754_nan.
Proof. reflexivity. Qed.

Lemma nan_add_l (y : PrimFloat.float) :
  PrimFloat.add PrimFloat.nan y = PrimFloat.nan.
Proof.
  apply FloatAxioms.Prim2SF_inj. rewrite FloatAxioms.add_spec, Prim2SF_nan.
  reflexivity.
Qed.

Lemma nan_sub_l (y : PrimFloat.float) :
  PrimFloat.sub PrimFloat.nan y = PrimFloat.nan.
Proof.
  apply FloatAxioms.Prim2SF_inj. rewrite FloatAxioms.sub_spec, Prim2SF_nan.
  reflexivity.
Qed.

Lemma nan_sub_r (x : PrimFloat.float) :
  PrimFloat.sub x PrimFloat.nan = PrimFloat.nan.
Proof.
  apply FloatAxioms.Prim2SF_inj. rewrite FloatAxioms.sub_spec, Prim2SF_nan.
  now destruct (FloatOps.Prim2SF x).
Qed.

Lemma nan_mul_l (y : PrimFloat.float) :
  PrimFloat.mul PrimFloat.nan y = PrimFloat.nan.
Proof.
  apply FloatAxioms.Prim2SF_inj. rewrite FloatAxioms.mul_spec, Prim2SF_nan.
  reflexivity.
Qed.

Lemma nan_mul_r (x : PrimFloat.float) :
  PrimFloat.mul x PrimFloat.nan = PrimFloat.nan.
Proof.
  apply FloatAxioms.Prim2SF_inj. rewrite FloatAxioms.mul_spec, Prim2SF_nan.
  now destruct (FloatOps.Prim2SF x).
Qed.

(** A finite float minus itself is zero. *)
Lemma sub_diag_finite (x : PrimFloat.float) :
  PrimFloat.is_finite x = true -> PrimFloat.sub x x = PrimFloat.zero.
Proof.
  intros Hfin. apply FloatAxioms.Prim2SF_inj. rewrite FloatAxioms.sub_spec.
  unfold PrimFloat.is_finite, PrimFloat.is_nan, PrimFloat.is_infinity in Hfin.
  rewrite !FloatAxioms.eqb_spec, FloatAxioms.abs_spec in Hfin.
  destruct (FloatOps.Prim2SF x) as [s|s| |s m e].
  - now destruct s.
  - destruct s; vm_compute in Hfin; discriminate.
  - vm_compute in Hfin. discriminate.
  - unfold FloatAxioms.SF64sub, SpecFloat.SFsub. cbv zeta.
    rewrite Z.sub_diag. reflexivity.
Qed.

(** The angular difference of a finite angle to itself is exactly 0. *)
Lemma angle_difference_same_b (L : Binary64.libm) (r : PrimFloat.float) :
  PrimFloat.is_finite r = true ->
  @angle_difference _ (Binary64.binary64 L) r r = Ok PrimFloat.zero.
Proof.
  intros Hr. unfold angle_difference. cbn [fsub fadd fmod lit Binary64.binary64].
  rewrite (sub_diag_finite r Hr). vm_compute. reflexivity.
Qed.

(** [% 360] has a divisor that is not zero: the angular difference raises
    for no float. *)
Lemma angle_difference_defined_b (L : Binary64.libm) (a1 a2 : PrimFloat.float) :
  exists d, @angle_difference _ (Binary64.binary64 L) a1 a2 = Ok d.
Proof.
  unfold angle_difference. cbn [fsub fadd fmod lit Binary64.binary64].
  unfold Binary64.modulo.
  change (PrimFloat.eqb (Binary64.of_int 360) PrimFloat.zero) with false.
  cbn [mbind result_bind bind]. eauto.
Qed.

End FloatFacts.

(** NaN goes through the bearing and the angular difference. *)
Section FloatNaN.
Import Aiaiail.
Variable L : Binary64.libm.
Hypothesis HL : Binary64.nan_preserving L.

Local Abbreviation fl := PrimFloat.float.
Local Abbreviation nan := PrimFloat.nan.

Lemma math_1_sin_nan : Binary64.math_1 (Binary64.c_sin L) nan = Ok nan.
Proof. unfold Binary64.math_1. now rewrite (proj1 HL). Qed.

Lemma math_1_cos_nan : Binary64.math_1 (Binary64.c_cos L) nan = Ok nan.
Proof. unfold Binary64.math_1. now rewrite (proj2 HL). Qed.

Lemma atan2_nan_l (x : fl) : Binary64.atan2 L nan x = Ok nan.
Proof.
  unfold Binary64.atan2, Binary64.m_atan2.
  change (PrimFloat.is_nan nan) with true. rewrite orb_true_r. reflexivity.
Qed.

Lemma atan2_nan_r (y : fl) : Binary64.atan2 L y nan = Ok nan.
Proof.
  unfold Binary64.atan2, Binary64.m_atan2.
  change (PrimFloat.is_nan nan) with true. cbn [orb negb andb].
  now rewrite andb_false_r.
Qed.

Lemma modulo_nan_360 : Binary64.modulo nan (Binary64.of_int 360) = Ok nan.
Proof. vm_compute. reflexivity. Qed.

Lemma angle_difference_nan_b (rot : fl) :
  @angle_difference _ (Binary64.binary64 L) rot nan = Ok nan.
Proof.
  unfold angle_difference. cbn [fsub fadd fmod lit Binary64.binary64].
  rewrite nan_sub_l. vm_compute. reflexivity.
Qed.

Lemma test_nan :
  @fle _ (Binary64.binary64 L) (@fabs _ (Binary64.binary64 L) nan)
    (@lit _ (Binary64.binary64 L) 30) = false.
Proof. vm_compute. reflexivity. Qed.

Ltac nan_rewrite :=
  repeat (progress rewrite ?nan_mul_l, ?nan_mul_r, ?nan_sub_l, ?nan_sub_r,
            ?nan_add_l, ?math_1_sin_nan, ?math_1_cos_nan, ?atan2_nan_l,
            ?atan2_nan_r).

Ltac step_bind :=
  nan_rewrite; cbn [mbind result_bind bind];
  lazymatch goal with
  | |- (?m ≫= _) = Ok _ -> _ =>
      let v := fresh "v" in
      destruct m as [v|]; cbn [mbind result_bind bind]; [|discriminate]
  end.

Lemma compute_bearing_nan_b (lat lng plat plon : fl) :
  lat = nan \/ lng = nan \/ plat = nan \/ plon = nan ->
  forall b, @compute_bearing _ (Binary64.binary64 L) lat lng plat plon = Ok b ->
            b = nan.
Proof.
  intros Hnan b. unfold compute_bearing.
  cbn [fsub fadd fmul fmod lit math_radians math_degrees math_sin math_cos
       math_atan2 Binary64.binary64].
  destruct Hnan as [-> | [-> | [-> | ->]]]; repeat step_bind;
    nan_rewrite; cbn [mbind result_bind bind]; nan_rewrite;
    rewrite modulo_nan_360; congruence.
Qed.

Lemma select_photo_nan_b (lat lng rot : fl) (p : photo fl) dq :
  lat = nan \/ lng = nan \/ latitude p = nan \/ longitude p = nan ->
  @select_photo _ (Binary64.binary64 L) lat lng rot p <> Ok (Some dq).
Proof.
  intros Hnan. unfold select_photo.
  destruct (haversine _ _ _ _) as [d|]; [|discriminate].
  destruct (compute_bearing _ _ _ _) as [b|] eqn:Eb; [|discriminate].
  apply compute_bearing_nan_b in Eb as ->; [|exact Hnan].
  cbn [mbind result_bind bind]. rewrite angle_difference_nan_b.
  cbn [mbind result_bind bind]. rewrite test_nan. discriminate.
Qed.

End FloatNaN.

Section SelectionClaims.
Local Open Scope R_scope.
Import Aiaiail.

Lemma select_photo_finite (lat lng rot : R) (p : photo xreal) :
  finite_photo p ->
  select_photo (Fin lat) (Fin lng) (Fin rot) p
  = Ok (if Rle_dec (Rabs (XReal.angle_difference_R rot (photo_bearing lat lng p))) 30
        then Some (Fin (photo_distance lat lng p), p) else None).
Proof.
  intros [Hlat Hlon]. destruct p as [fp plat plon dir]. cbn in Hlat, Hlon.
  destruct plat as [plat| | |], plon as [plon| | |]; try discriminate.
  apply select_photo_fin.
Qed.

Lemma compute_bearing_finite (lat lng : R) (p : photo xreal) :
  finite_photo p ->
  compute_bearing (Fin lat) (Fin lng) (latitude p) (longitude p)
  = Ok (Fin (photo_bearing lat lng p)).
Proof.
  intros [Hlat Hlon]. destruct p as [fp plat plon dir]. cbn in Hlat, Hlon.
  destruct plat as [plat| | |], plon as [plon| | |]; try discriminate.
  apply compute_bearing_fin.
Qed.

(** The records shown are those of the list that pass the test of the loop. *)
Lemma update_left_pane_In {F : Type} `{PyFloat F}
    (lat lng rot : F) (l : list (photo F)) res :
  update_left_pane l lat lng rot = Ok res ->
  forall p, In p (map snd res) <->
            In p l /\ exists d, select_photo lat lng rot p = Ok (Some (d, p)).
Proof.
  unfold update_left_pane. intros E p.
  destruct (selected_photos lat lng rot l) as [sel|] eqn:Esel; [|discriminate].
  injection E as <-.
  rewrite (sort_by_key_Permutation sel), in_map_iff.
  split.
  - intros ([d q] & <- & Hin).
    apply (selected_photos_In _ _ _ _ _ Esel) in Hin as (p' & Hp' & Ep').
    pose proof (select_photo_same _ _ _ _ _ _ Ep') as ->. cbn. eauto.
  - intros (Hin & d & Ed). exists (d, p). split; [reflexivity|].
    apply (selected_photos_In _ _ _ _ _ Esel). eauto.
Qed.

(** The test of the loop, in any arithmetic. *)
Lemma select_photo_iff {F : Type} `{PyFloat F}
    (lat lng rot : F) (p : photo F) (d : F) :
  select_photo lat lng rot p = Ok (Some (d, p))
  <-> exists b diff,
        haversine lng lat (longitude p) (latitude p) = Ok d
        /\ compute_bearing lat lng (latitude p) (longitude p) = Ok b
        /\ angle_difference rot b = Ok diff
        /\ fle (fabs diff) (lit 30) = true.
Proof.
  unfold select_photo. split.
  - destruct (haversine _ _ _ _) as [dist|]; [|discriminate].
    destruct (compute_bearing _ _ _ _) as [b|]; [|discriminate].
    cbn [mbind result_bind bind].
    destruct (angle_difference rot b) as [diff|] eqn:Ed; [|discriminate].
    cbn [mbind result_bind bind].
    destruct (fle _ _) eqn:Et; [|discriminate].
    intros [= <-]. exists b, diff. auto.
  - intros (b & diff & -> & -> & Ed & Et). cbn [mbind result_bind bind].
    rewrite Ed. cbn [mbind result_bind bind]. now rewrite Et.
Qed.

Lemma bearing_R_east : XReal.bearing_R 0 0 0 1 = 90.
Proof.
  pose proof PI_RGT_0 as Hpi. unfold XReal.bearing_R.
  assert (Hx : XReal.bearing_x 0 0 0 1 = sin (XReal.rad (1 + - 0))).
  { unfold XReal.bearing_x.
    replace (XReal.rad 0) with 0 by (unfold XReal.rad; field).
    rewrite cos_0. ring. }
  assert (Hy : XReal.bearing_y 0 0 0 1 = 0).
  { unfold XReal.bearing_y.
    replace (XReal.rad 0) with 0 by (unfold XReal.rad; field).
    rewrite sin_0. ring. }
  rewrite Hx, Hy. unfold XReal.Ratan2.
  destruct (Rlt_dec 0 0); [lra|]. destruct (Rlt_dec 0 0); [lra|].
  assert (Hs : 0 < sin (XReal.rad (1 + - 0)))
    by (apply sin_gt_0; unfold XReal.rad; nra).
  destruct (Rlt_dec 0 (sin (XReal.rad (1 + - 0)))); [|lra].
  replace (PI / 2 * (180 / PI) + 360) with (90 + 360) by (field; lra).
  apply (Rfmod_eq (90 + 360) 360 90 1); lra.
Qed.

Lemma just_over_30 :
  XReal.angle_difference_R (120 + / 2 ^ 46) 90 = - 30 - / 2 ^ 46.
Proof.
  assert (He : 0 < / 2 ^ 46 <= 1).
  { split; [apply Rinv_0_lt_compat; lra|].
    apply Rmult_le_reg_l with (2 ^ 46); [lra|]. rewrite Rinv_r; lra. }
  unfold XReal.angle_difference_R.
  rewrite (Rfmod_eq _ 360 (150 - / 2 ^ 46) 1); lra.
Qed.

(** C2, as stated, does not hold of the code: the test is applied to the
    rounded difference, not to the angles.  The rotation
    120.00000000000001 (the float after 120, that is 120 + 2^-46) is more
    than 30 degrees away from the bearing 90 of the record one degree east
    of the viewpoint (0, 0).  In double precision [angle_difference]
    returns exactly -30 for them and the record is selected; on the real
    numbers the difference is -30 - 2^-46 and the record is left out.  The
    values of the C library are those of [Binary64.glibc_east]. *)
Lemma selection_cone_rounded_boundary :
  FloatOps.Prim2SF (PrimFloat.next_up (Binary64.of_int 120))
  = SpecFloat.S754_finite false 8444249301319681 (-46)
  /\ (8444249301319681 = 120 * 2 ^ 46 + 1)%Z
  /\ @compute_bearing _ (Binary64.binary64 Binary64.glibc_east)
       (Binary64.of_int 0) (Binary64.of_int 0) (Binary64.of_int 0) (Binary64.of_int 1)
     = Ok (Binary64.of_int 90)
  /\ @angle_difference _ (Binary64.binary64 Binary64.glibc_east)
       (PrimFloat.next_up (Binary64.of_int 120)) (Binary64.of_int 90)
     = Ok (Binary64.of_int (-30))
  /\ (exists d,
        @update_left_pane _ (Binary64.binary64 Binary64.glibc_east) [east_photo_b]
          (Binary64.of_int 0) (Binary64.of_int 0)
          (PrimFloat.next_up (Binary64.of_int 120))
        = Ok [(d, east_photo_b)])
  /\ compute_bearing (Fin 0) (Fin 0) (Fin 0) (Fin 1) = Ok (Fin 90)
  /\ angle_difference (Fin (120 + / 2 ^ 46)) (Fin 90) = Ok (Fin (- 30 - / 2 ^ 46))
  /\ update_left_pane [east_photo] (Fin 0) (Fin 0) (Fin (120 + / 2 ^ 46)) = Ok [].
Proof.
  split; [vm_compute; reflexivity|]. split; [reflexivity|].
  split; [vm_compute; reflexivity|]. split; [vm_compute; reflexivity|].
  split; [eexists; vm_compute; reflexivity|].
  split; [now rewrite compute_bearing_fin, bearing_R_east|].
  split; [now rewrite angle_difference_fin, just_over_30|].
  unfold update_left_pane. rewrite selected_photos_cons. unfold east_photo.
  rewrite select_photo_fin, bearing_R_east, just_over_30.
  assert (He : 0 < / 2 ^ 46) by (apply Rinv_0_lt_compat; lra).
  destruct (Rle_dec _ 30) as [Hle|]; [|reflexivity].
  rewrite Rabs_left in Hle; lra.
Qed.

(** C2, amended: in any arithmetic, when the call returns, a record is
    selected if and only if it is in the list and the difference that
    [angle_difference] computes from the rotation and the computed bearing
    passes the test [abs(angle_diff) <= 30].  In double precision, for
    every C library, a record whose computed bearing equals a finite
    rotation is selected whenever its distance is computed: the difference
    is exactly 0.  In exact arithmetic, for a finite viewpoint and finite
    records, the call returns, a record is selected if and only if the
    absolute angular difference of the real angles is at most 30 degrees, a
    record whose bearing is the rotation (up to whole turns) is selected,
    and one whose bearing is the rotation plus 180 degrees (up to whole
    turns) is not. *)
Theorem selection_cone :
  (forall (F : Type) (HF : PyFloat F) (lat lng rot : F)
          (photo_list : list (photo F)) res,
      update_left_pane photo_list lat lng rot = Ok res ->
      forall p, In p (map snd res) <->
        In p photo_list
        /\ exists d b diff,
             haversine lng lat (longitude p) (latitude p) = Ok d
             /\ compute_bearing lat lng (latitude p) (longitude p) = Ok b
             /\ angle_difference rot b = Ok diff
             /\ fle (fabs diff) (lit 30) = true)
  /\ (forall (L : Binary64.libm) (lat lng rot d : PrimFloat.float)
             (p : photo PrimFloat.float),
      PrimFloat.is_finite rot = true ->
      @haversine _ (Binary64.binary64 L) lng lat (longitude p) (latitude p) = Ok d ->
      @compute_bearing _ (Binary64.binary64 L) lat lng (latitude p) (longitude p)
      = Ok rot ->
      @select_photo _ (Binary64.binary64 L) lat lng rot p = Ok (Some (d, p)))
  /\ (forall (lat lng rot : R) (photo_list : list (photo xreal)),
      Forall finite_photo photo_list ->
      exists res,
        update_left_pane photo_list (Fin lat) (Fin lng) (Fin rot) = Ok res
        /\ (forall p, In p photo_list ->
              compute_bearing (Fin lat) (Fin lng) (latitude p) (longitude p)
              = Ok (Fin (photo_bearing lat lng p))
              /\ angle_difference (Fin rot) (Fin (photo_bearing lat lng p))
                 = Ok (Fin (XReal.angle_difference_R rot (photo_bearing lat lng p))))
        /\ (forall p, In p (map snd res) <->
              In p photo_list
              /\ Rabs (XReal.angle_difference_R rot (photo_bearing lat lng p)) <= 30)
        /\ (forall p k, In p photo_list ->
              photo_bearing lat lng p = rot + 360 * IZR k -> In p (map snd res))
        /\ (forall p k, In p photo_list ->
              photo_bearing lat lng p = rot + 180 + 360 * IZR k ->
              ~ In p (map snd res))).
Proof.
  split; [|split].
  - intros F HF lat lng rot photo_list res E p.
    rewrite (update_left_pane_In _ _ _ _ _ E). split.
    + intros [Hin (d & Ed)]. split; [assumption|]. exists d.
      now apply select_photo_iff.
    + intros [Hin (d & Hd)]. split; [assumption|]. exists d.
      now apply select_photo_iff.
  - intros L lat lng rot d p Hrot Ed Eb. apply select_photo_iff.
    exists rot, PrimFloat.zero. split; [assumption|]. split; [assumption|].
    split; [now apply angle_difference_same_b|]. vm_compute. reflexivity.
  - intros lat lng rot photo_list Hfin.
    destruct (selected_photos_no_inf (Fin lat) (Fin lng) (Fin rot) photo_list)
      as (sel & Esel & _); [reflexivity | reflexivity | |].
    { eapply Forall_impl; [exact Hfin | apply finite_no_inf]. }
    assert (Eres : update_left_pane photo_list (Fin lat) (Fin lng) (Fin rot)
                   = Ok (sort_by_key sel)).
    { unfold update_left_pane. now rewrite Esel. }
    assert (Hiff : forall p, In p (map snd (sort_by_key sel)) <->
              In p photo_list
              /\ Rabs (XReal.angle_difference_R rot (photo_bearing lat lng p)) <= 30).
    { intros p. rewrite (update_left_pane_In _ _ _ _ _ Eres).
      split; intros [Hin Hp]; (split; [assumption|]).
      - destruct Hp as (d & Ed).
        rewrite select_photo_finite in Ed
          by (rewrite Forall_forall in Hfin; apply Hfin; now apply list_elem_of_In).
        destruct (Rle_dec _ 30); [assumption | discriminate].
      - exists (Fin (photo_distance lat lng p)).
        rewrite select_photo_finite
          by (rewrite Forall_forall in Hfin; apply Hfin; now apply list_elem_of_In).
        destruct (Rle_dec _ 30); [reflexivity | contradiction]. }
    exists (sort_by_key sel). split; [exact Eres|].
    split; [|split; [exact Hiff|split]].
    + intros p Hin. split; [|apply angle_difference_fin].
      apply compute_bearing_finite.
      rewrite Forall_forall in Hfin. apply Hfin. now apply list_elem_of_In.
    + intros p k Hin Hb. apply Hiff. split; [assumption|].
      rewrite (angle_difference_same rot _ k Hb), Rabs_R0. lra.
    + intros p k Hin Hb [_ Hle]%Hiff.
      rewrite (angle_difference_opposite rot _ k Hb) in Hle.
      rewrite Rabs_left in Hle; lra.
Qed.

End SelectionClaims.

Section OrderClaims.
Local Open Scope R_scope.
Import Aiaiail.

Lemma selection_cone_witness :
  Forall finite_photo [east_photo]
  /\ exists res, update_left_pane [east_photo] (Fin 0) (Fin 0) (Fin 90) = Ok res.
Proof.
  assert (Hf : Forall finite_photo [east_photo]) by (repeat constructor).
  split; [exact Hf|].
  destruct (proj2 (proj2 selection_cone) 0 0 90 [east_photo] Hf) as (res & E & _).
  exists res. exact E.
Defined.



End OrderClaims.

(** ** NaN coordinates (spec section 7) *)

Section NaNClaims.
Local Open Scope R_scope.
Import Aiaiail.

(** C5, as stated, does not hold: a record whose latitude is NaN raises
    nothing.  Its distance, its bearing and its angular difference are NaN,
    the test [abs(angle_diff) <= 30] is false, and the call returns the
    selection without it -- in the exact semantics and in double precision
    alike.  The same holds for a NaN latitude of the viewpoint. *)
Lemma nan_record_raises_nothing :
  update_left_pane [nan_photo_x] (Fin 0) (Fin 0) (Fin 0) = Ok []
  /\ ~ raises (update_left_pane [nan_photo_x] (Fin 0) (Fin 0) (Fin 0))
  /\ update_left_pane [east_photo] NaN (Fin 0) (Fin 90) = Ok []
  /\ @update_left_pane _ (Binary64.binary64 Binary64.glibc_trace) [nan_photo_b]
       (Binary64.of_int 0) (Binary64.of_int 0) (Binary64.of_int 0) = Ok [].
Proof.
  assert (E : update_left_pane [nan_photo_x] (Fin 0) (Fin 0) (Fin 0) = Ok []).
  { unfold update_left_pane. rewrite selected_photos_cons.
    rewrite select_photo_nan; [reflexivity | reflexivity.. | cbn; tauto]. }
  split; [exact E|]. split; [|split].
  - rewrite E. intros [e He]. discriminate.
  - unfold update_left_pane. rewrite selected_photos_cons.
    rewrite select_photo_nan; [reflexivity | reflexivity.. | tauto].
  - vm_compute. reflexivity.
Qed.

Lemma select_photo_nan_x (lat lng rot : xreal) (p : photo xreal) dq :
  lat = NaN \/ lng = NaN \/ latitude p = NaN \/ longitude p = NaN ->
  select_photo lat lng rot p <> Ok (Some dq).
Proof.
  intros Hnan.
  destruct (XReal.is_inf lng || XReal.is_inf lat
            || XReal.is_inf (longitude p) || XReal.is_inf (latitude p)) eqn:Hinf.
  - now apply select_photo_inf.
  - apply orb_false_elim in Hinf as [Hinf H4].
    apply orb_false_elim in Hinf as [Hinf H3].
    apply orb_false_elim in Hinf as [H1 H2].
    rewrite select_photo_nan by assumption. discriminate.
Qed.

Lemma glibc_trace_nan_preserving : Binary64.nan_preserving Binary64.glibc_trace.
Proof. split; reflexivity. Qed.

(** C5, amended: a NaN coordinate raises no error and gives no explicit
    result.  Whenever the call returns, in exact arithmetic and in double
    precision (for every C library whose sine and cosine answer NaN at
    NaN), the records with a NaN coordinate are silently absent from the
    result -- their bearing and angular difference are NaN and the test
    [abs(angle_diff) <= 30] is false -- and with a NaN coordinate of the
    viewpoint the result is empty.  Calls with NaN coordinates do return:
    [nan_record_raises_nothing] has some. *)
Theorem nan_records_left_out :
  (forall (lat lng rot : xreal) (photo_list : list (photo xreal)) res,
      update_left_pane photo_list lat lng rot = Ok res ->
      (forall p, In p (map snd res) -> In p photo_list /\ ~ nan_photo p)
      /\ (lat = NaN \/ lng = NaN -> res = []))
  /\ (forall (L : Binary64.libm) (lat lng rot : PrimFloat.float)
             (photo_list : list (photo PrimFloat.float)) res,
      Binary64.nan_preserving L ->
      @update_left_pane _ (Binary64.binary64 L) photo_list lat lng rot = Ok res ->
      (forall p, In p (map snd res) -> In p photo_list /\ ~ nan_photo_f p)
      /\ (lat = PrimFloat.nan \/ lng = PrimFloat.nan -> res = [])).
Proof.
  split.
  - intros lat lng rot photo_list res E. split.
    + intros p [Hin (d & Ed)]%(update_left_pane_In _ _ _ _ _ E).
      split; [assumption|]. intros Hnan.
      apply (select_photo_nan_x lat lng rot p (d, p)); [|exact Ed].
      unfold nan_photo in Hnan. tauto.
    + intros Hnan. destruct res as [|[d p] res']; [reflexivity|]. exfalso.
      assert (Hp : In p (map snd ((d, p) :: res'))) by now left.
      apply (update_left_pane_In _ _ _ _ _ E) in Hp as [_ (d' & Ed)].
      apply (select_photo_nan_x lat lng rot p (d', p)); [tauto | exact Ed].
  - intros L lat lng rot photo_list res HL E. split.
    + intros p [Hin (d & Ed)]%(update_left_pane_In _ _ _ _ _ E).
      split; [assumption|]. intros Hnan.
      apply (select_photo_nan_b L HL lat lng rot p (d, p)); [|exact Ed].
      unfold nan_photo_f in Hnan. tauto.
    + intros Hnan. destruct res as [|[d p] res']; [reflexivity|]. exfalso.
      assert (Hp : In p (map snd ((d, p) :: res'))) by now left.
      apply (update_left_pane_In _ _ _ _ _ E) in Hp as [_ (d' & Ed)].
      apply (select_photo_nan_b L HL lat lng rot p (d', p)); [tauto | exact Ed].
Qed.

Lemma nan_records_left_out_witness :
  (exists res,
      update_left_pane [nan_photo_x; east_photo] (Fin 0) (Fin 0) (Fin 90) = Ok res
      /\ ~ In nan_photo_x (map snd res))
  /\ Binary64.nan_preserving Binary64.glibc_trace
  /\ @update_left_pane _ (Binary64.binary64 Binary64.glibc_trace) [nan_photo_b]
       (Binary64.of_int 0) (Binary64.of_int 0) (Binary64.of_int 0) = Ok []
  /\ ~ In nan_photo_b (map snd ([] : list (PrimFloat.float * photo PrimFloat.float))).
Proof.
  assert (Eb : @update_left_pane _ (Binary64.binary64 Binary64.glibc_trace)
                 [nan_photo_b] (Binary64.of_int 0) (Binary64.of_int 0)
                 (Binary64.of_int 0) = Ok []) by (vm_compute; reflexivity).
  split; [|split; [exact glibc_trace_nan_preserving | split; [exact Eb|]]].
  - destruct (selected_photos_no_inf (Fin 0) (Fin 0) (Fin 90) [nan_photo_x; east_photo])
      as (sel & Esel & _); [reflexivity | reflexivity | repeat constructor |].
    assert (E : update_left_pane [nan_photo_x; east_photo] (Fin 0) (Fin 0) (Fin 90)
                = Ok (sort_by_key sel))
      by (unfold update_left_pane; now rewrite Esel).
    exists (sort_by_key sel). split; [exact E|].
    intros Hp.
    apply (proj1 (proj1 nan_records_left_out _ _ _ _ _ E)) in Hp as [_ Hp].
    apply Hp. now left.
  - intros Hp.
    apply (proj1 (proj2 nan_records_left_out _ _ _ _ _ _
                    glibc_trace_nan_preserving Eb)) in Hp as [_ Hp].
    apply Hp. now left.
Defined.

End NaNClaims.

(** ** Rotations outside [0, 360) (spec section 4.2, edge conditions) *)

Section RotationClaims.
Local Open Scope R_scope.
Import Aiaiail.

Lemma select_photo_mod_360 (lat lng : xreal) (r : R) (p : photo xreal) :
  select_photo lat lng (Fin (XReal.Rfmod r 360)) p = select_photo lat lng (Fin r) p.
Proof.
  unfold select_photo.
  destruct (haversine _ _ _ _) as [d|e]; [|reflexivity].
  destruct (compute_bearing _ _ _ _) as [b|e]; [|reflexivity].
  cbn [mbind result_bind bind]. now rewrite angle_difference_mod_360.
Qed.

(** C8, as stated, does not hold of the code: in double precision the sum
    [a2 - a1 + 180 + 360] is rounded before [% 360] is taken, and a large
    rotation loses its low digits there.  At the rotation 10^18 + 2304 (a
    float, and 64 modulo 360) the record one degree east of the viewpoint
    (0, 0), of bearing 90, has the difference 36 and is left out; at the
    rotation 64 it has the difference 26 and is selected.  So it is for the
    rotation 10^18 (280 modulo 360) and a bearing of 270: -52 against
    -10. *)
Lemma rotation_not_reduced_in_floats :
  FloatOps.Prim2SF (Binary64.of_int (10 ^ 18 + 2304))
  = SpecFloat.S754_finite false 7812500000000018 7
  /\ (7812500000000018 * 2 ^ 7 = 10 ^ 18 + 2304)%Z
  /\ Binary64.modulo (Binary64.of_int (10 ^ 18 + 2304)) (Binary64.of_int 360)
     = Ok (Binary64.of_int 64)
  /\ @angle_difference _ (Binary64.binary64 Binary64.glibc_east)
       (Binary64.of_int (10 ^ 18 + 2304)) (Binary64.of_int 90)
     = Ok (Binary64.of_int 36)
  /\ @angle_difference _ (Binary64.binary64 Binary64.glibc_east)
       (Binary64.of_int 64) (Binary64.of_int 90)
     = Ok (Binary64.of_int 26)
  /\ @update_left_pane _ (Binary64.binary64 Binary64.glibc_east) [east_photo_b]
       (Binary64.of_int 0) (Binary64.of_int 0) (Binary64.of_int (10 ^ 18 + 2304))
     = Ok []
  /\ (exists d,
        @update_left_pane _ (Binary64.binary64 Binary64.glibc_east) [east_photo_b]
          (Binary64.of_int 0) (Binary64.of_int 0) (Binary64.of_int 64)
        = Ok [(d, east_photo_b)])
  /\ Binary64.modulo (Binary64.of_int (10 ^ 18)) (Binary64.of_int 360)
     = Ok (Binary64.of_int 280)
  /\ @angle_difference _ (Binary64.binary64 Binary64.glibc_east)
       (Binary64.of_int (10 ^ 18)) (Binary64.of_int 270)
     = Ok (Binary64.of_int (-52))
  /\ @angle_difference _ (Binary64.binary64 Binary64.glibc_east)
       (Binary64.of_int 280) (Binary64.of_int 270)
     = Ok (Binary64.of_int (-10)).
Proof.
  repeat split; try (vm_compute; reflexivity).
  eexists. vm_compute. reflexivity.
Qed.

(** C8, amended: in exact arithmetic, for every real rotation [r], inside
    [0, 360) or not, and every list of records, the selection is the one
    obtained with the rotation reduced to [r mod 360], and the angular
    difference is defined for every real rotation and bearing.  In double
    precision the angular difference is defined as well -- it raises for no
    rotation and no bearing, whatever the C library -- but the selection is
    not always the one of the reduced rotation. *)
Theorem rotation_modulo_360 (r : R) (lat lng : xreal) (photo_list : list (photo xreal)) :
  update_left_pane photo_list lat lng (Fin r)
  = update_left_pane photo_list lat lng (Fin (XReal.Rfmod r 360))
  /\ 0 <= XReal.Rfmod r 360 < 360
  /\ (forall b : R, exists d : R,
        angle_difference (Fin r) (Fin b) = Ok (Fin d)
        /\ angle_difference (Fin (XReal.Rfmod r 360)) (Fin b) = Ok (Fin d))
  /\ (forall (L : Binary64.libm) (a1 a2 : PrimFloat.float),
        exists d, @angle_difference _ (Binary64.binary64 L) a1 a2 = Ok d).
Proof.
  split; [|split; [|split]].
  - unfold update_left_pane. f_equal.
    induction photo_list as [|p l IH]; [reflexivity|].
    now rewrite !selected_photos_cons, select_photo_mod_360, IH.
  - apply Rfmod_bound. lra.
  - intros b. exists (XReal.angle_difference_R r b).
    rewrite angle_difference_mod_360. split; apply angle_difference_fin.
  - intros L a1 a2. apply angle_difference_defined_b.
Qed.

End RotationClaims.

(** ** Domain errors of the distance and the bearing (spec section 4.2) *)

Section DomainClaims.
Local Open Scope R_scope.
Import Aiaiail.

Lemma hav_a_beyond_pole : XReal.hav_a 0 45 180 135 = 0.
Proof.
  unfold XReal.hav_a, XReal.rad.
  replace ((135 * (PI / 180) + - (45 * (PI / 180))) / 2) with (PI / 4) by field.
  replace ((180 * (PI / 180) + - (0 * (PI / 180))) / 2) with (PI / 2) by field.
  replace (45 * (PI / 180)) with (PI / 4) by field.
  replace (135 * (PI / 180)) with (3 * (PI / 4)) by field.
  rewrite sin_PI4, cos_PI4, cos_3PI4, sin_PI2.
  assert (Hs : sqrt 2 * sqrt 2 = 2) by (apply sqrt_sqrt; lra).
  assert (Hn : sqrt 2 <> 0) by (intros E; rewrite E in Hs; lra).
  field. exact Hn.
Qed.

(** C3, as stated, does not hold: [a] is not clamped.  The viewpoint at
    latitude 45, longitude 0 and the record at latitude 135, longitude 180
    are the same point of the sphere; exactly, [a = 0] and the distance is 0.
    In double precision [sin(dlat/2)**2] is 0x1.ffffffffffffep-2, that is
    0.5 - 2^-53, and [cos(lat1_rad) * cos(lat2_rad)] is -0.5, so that [a] is
    -2^-53: [math.sqrt] raises ValueError ("math domain error"), and so does
    the whole call. *)
Lemma haversine_domain_error :
  @haversine _ (Binary64.binary64 Binary64.glibc_trace)
    (Binary64.of_int 0) (Binary64.of_int 45) (Binary64.of_int 180) (Binary64.of_int 135)
  = Raise ValueError
  /\ @update_left_pane _ (Binary64.binary64 Binary64.glibc_trace) [beyond_pole_b]
       (Binary64.of_int 45) (Binary64.of_int 0) (Binary64.of_int 0)
     = Raise ValueError
  /\ haversine (Fin 0) (Fin 45) (Fin 180) (Fin 135) = Ok (Fin 0).
Proof.
  split; [vm_compute; reflexivity|]. split; [vm_compute; reflexivity|].
  rewrite haversine_fin. do 2 f_equal. unfold XReal.haversine_R.
  rewrite hav_a_beyond_pole, sqrt_0, asin_0. lra.
Qed.

(** C3, amended: in exact arithmetic, for every pair of points with finite
    coordinates -- coincident and antipodal points included -- the haversine
    intermediate [a] lies in [0, 1], and neither the distance nor the bearing
    computation raises a domain error; coincident coordinates give the
    distance 0.  (Nothing is clamped: a rounded [a] below 0, or whose square
    root is above 1, raises ValueError.) *)
Theorem distance_and_bearing_defined (lon1 lat1 lon2 lat2 : R) :
  0 <= XReal.hav_a lon1 lat1 lon2 lat2 <= 1
  /\ haversine (Fin lon1) (Fin lat1) (Fin lon2) (Fin lat2)
     = Ok (Fin (2 * asin (sqrt (XReal.hav_a lon1 lat1 lon2 lat2)) * 6371))
  /\ (exists b : R,
        compute_bearing (Fin lat1) (Fin lon1) (Fin lat2) (Fin lon2) = Ok (Fin b))
  /\ haversine (Fin lon1) (Fin lat1) (Fin lon1) (Fin lat1) = Ok (Fin 0)
  /\ exists b : R,
       compute_bearing (Fin lat1) (Fin lon1) (Fin lat1) (Fin lon1) = Ok (Fin b).
Proof.
  split; [apply hav_a_bound|]. split; [apply haversine_fin|].
  split; [eexists; apply compute_bearing_fin|].
  split; [|eexists; apply compute_bearing_fin].
  rewrite haversine_fin. do 2 f_equal. unfold XReal.haversine_R, XReal.hav_a.
  replace ((XReal.rad lat1 + - XReal.rad lat1) / 2) with 0 by field.
  replace ((XReal.rad lon1 + - XReal.rad lon1) / 2) with 0 by field.
  rewrite sin_0.
  replace (0 ^ 2 + cos (XReal.rad lat1) * cos (XReal.rad lat1) * 0 ^ 2) with 0 by ring.
  rewrite sqrt_0, asin_0. lra.
Qed.

End DomainClaims.

(** ** The distance as a metric (spec section 4.2, step 1) *)

Section DistanceClaims.
Local Open Scope R_scope.
Import Aiaiail.
Local Abbreviation rad := XReal.rad.

Lemma hav_a_sym (lon1 lat1 lon2 lat2 : R) :
  XReal.hav_a lon1 lat1 lon2 lat2 = XReal.hav_a lon2 lat2 lon1 lat1.
Proof.
  unfold XReal.hav_a.
  replace ((rad lat1 + - rad lat2) / 2) with (- ((rad lat2 + - rad lat1) / 2)) by field.
  replace ((rad lon1 + - rad lon2) / 2) with (- ((rad lon2 + - rad lon1) / 2)) by field.
  rewrite !sin_neg. ring.
Qed.

Lemma sin_half_sqr (u : R) : sin (u / 2) ^ 2 = (1 - cos u) / 2.
Proof.
  pose proof (cos_2a_sin (u / 2)) as H.
  replace (2 * (u / 2)) with u in H by field. rewrite H. field.
Qed.

(** Four times [a] is the squared chord between the two unit vectors. *)
Lemma hav_a_chord (lon1 lat1 lon2 lat2 : R) :
  4 * XReal.hav_a lon1 lat1 lon2 lat2
  = (cos (rad lat1) * cos (rad lon1) - cos (rad lat2) * cos (rad lon2)) ^ 2
    + (cos (rad lat1) * sin (rad lon1) - cos (rad lat2) * sin (rad lon2)) ^ 2
    + (sin (rad lat1) - sin (rad lat2)) ^ 2.
Proof.
  unfold XReal.hav_a. rewrite !sin_half_sqr, !cos_plus, !cos_neg, !sin_neg.
  pose proof (sin2_cos2 (rad lat1)) as H1. pose proof (sin2_cos2 (rad lat2)) as H2.
  pose proof (sin2_cos2 (rad lon1)) as H3. pose proof (sin2_cos2 (rad lon2)) as H4.
  unfold Rsqr in *.
  set (sa := sin (rad lat1)) in *. set (ca := cos (rad lat1)) in *.
  set (sb := sin (rad lat2)) in *. set (cb := cos (rad lat2)) in *.
  set (s1 := sin (rad lon1)) in *. set (c1 := cos (rad lon1)) in *.
  set (s2 := sin (rad lon2)) in *. set (c2 := cos (rad lon2)) in *.
  replace ((ca * c1 - cb * c2) ^ 2 + (ca * s1 - cb * s2) ^ 2 + (sa - sb) ^ 2)
    with (ca * ca * (s1 * s1 + c1 * c1) + cb * cb * (s2 * s2 + c2 * c2)
          + sa * sa + sb * sb
          - 2 * ca * cb * (c1 * c2 + s1 * s2) - 2 * sa * sb) by ring.
  rewrite H3, H4.
  replace (ca * ca * 1 + cb * cb * 1 + sa * sa + sb * sb)
    with ((sa * sa + ca * ca) + (sb * sb + cb * cb)) by ring.
  rewrite H1, H2. field.
Qed.

Lemma hav_a_zero_iff (lon1 lat1 lon2 lat2 : R) :
  XReal.hav_a lon1 lat1 lon2 lat2 = 0 <-> XReal.same_point lat1 lon1 lat2 lon2.
Proof.
  pose proof (hav_a_chord lon1 lat1 lon2 lat2) as H.
  unfold XReal.same_point, XReal.unit_vector.
  set (x := cos (rad lat1) * cos (rad lon1) - cos (rad lat2) * cos (rad lon2)) in *.
  set (y := cos (rad lat1) * sin (rad lon1) - cos (rad lat2) * sin (rad lon2)) in *.
  set (z := sin (rad lat1) - sin (rad lat2)) in *.
  split.
  - intros E. rewrite E in H.
    assert (x = 0 /\ y = 0 /\ z = 0) as (Hx & Hy & Hz) by (repeat split; nra).
    unfold x, y, z in *. f_equal; [f_equal|]; lra.
  - intros [= Hx Hy Hz].
    assert (x = 0 /\ y = 0 /\ z = 0) as (Ex & Ey & Ez)
      by (unfold x, y, z; repeat split; lra).
    rewrite Ex, Ey, Ez in H. lra.
Qed.

Lemma asin_nonneg (q : R) : 0 <= q <= 1 -> 0 <= asin q.
Proof.
  intros Hq. pose proof (asin_bound q) as Hb. pose proof (sin_asin q ltac:(lra)) as Hs.
  destruct (Rle_dec 0 (asin q)) as [|Hneg]; [assumption|].
  pose proof (sin_lt_0_var (asin q)) as Hlt. pose proof PI_RGT_0. lra.
Qed.

Lemma haversine_R_nonneg (lon1 lat1 lon2 lat2 : R) :
  0 <= XReal.haversine_R lon1 lat1 lon2 lat2.
Proof.
  unfold XReal.haversine_R.
  pose proof (asin_nonneg _ (sqrt_unit _ (hav_a_bound lon1 lat1 lon2 lat2))). lra.
Qed.

Lemma haversine_R_zero_iff (lon1 lat1 lon2 lat2 : R) :
  XReal.haversine_R lon1 lat1 lon2 lat2 = 0 <-> XReal.hav_a lon1 lat1 lon2 lat2 = 0.
Proof.
  unfold XReal.haversine_R.
  pose proof (hav_a_bound lon1 lat1 lon2 lat2) as Ha.
  pose proof (sqrt_unit _ Ha) as Hq. split.
  - intros E. assert (E0 : asin (sqrt (XReal.hav_a lon1 lat1 lon2 lat2)) = 0) by lra.
    pose proof (sin_asin (sqrt (XReal.hav_a lon1 lat1 lon2 lat2)) ltac:(lra)) as Hs.
    rewrite E0, sin_0 in Hs. symmetry in Hs.
    now apply sqrt_eq_0 in Hs; [|lra].
  - intros ->. rewrite sqrt_0, asin_0. lra.
Qed.

End DistanceClaims.

Section SamePoint.
Local Open Scope R_scope.
Import Aiaiail.
Local Abbreviation rad := XReal.rad.

Lemma triple_eq (a b c a' b' c' : R) :
  a = a' -> b = b' -> c = c' -> (a, b, c) = (a', b', c').
Proof. congruence. Qed.

Lemma rad_inj (x y : R) : rad x = rad y -> x = y.
Proof. unfold XReal.rad. pose proof PI_RGT_0. intros E. nra. Qed.

Lemma rad_lat_range (lat : R) :
  -90 <= lat <= 90 -> - (PI / 2) <= rad lat <= PI / 2.
Proof. unfold XReal.rad. pose proof PI_RGT_0 as Hpi. intros Hr. split; nra. Qed.

Lemma rad_lon_range (lon : R) : -180 <= lon <= 180 -> - PI <= rad lon <= PI.
Proof. unfold XReal.rad. pose proof PI_RGT_0 as Hpi. intros Hr. split; nra. Qed.

Lemma sin_zero_range (x : R) :
  - PI <= x <= PI -> sin x = 0 -> x = - PI \/ x = 0 \/ x = PI.
Proof.
  intros Hx Hs.
  destruct (Rtotal_order x 0) as [Hneg|[->|Hpos]]; [|now (right; left)|].
  - destruct (Req_dec x (- PI)) as [->|Hne]; [now left|].
    pose proof (sin_lt_0_var x). lra.
  - destruct (Req_dec x PI) as [->|Hne]; [now (right; right)|].
    pose proof (sin_gt_0 x). lra.
Qed.

Lemma cos_zero_range (x : R) :
  - (PI / 2) <= x <= PI / 2 -> cos x = 0 -> x = - (PI / 2) \/ x = PI / 2.
Proof.
  intros Hx Hc.
  destruct (Req_dec x (- (PI / 2))) as [->|Hl]; [now left|].
  destruct (Req_dec x (PI / 2)) as [->|Hr]; [now right|].
  pose proof (cos_gt_0 x). lra.
Qed.

(** Angles with the same cosine and sine, at most a turn apart. *)
Lemma same_direction (u v : R) :
  - PI <= u <= PI -> - PI <= v <= PI ->
  cos u = cos v -> sin u = sin v ->
  u - v = - (2 * PI) \/ u = v \/ u - v = 2 * PI.
Proof.
  intros Hu Hv Hc Hs.
  assert (Hd : cos (u - v) = 1).
  { rewrite cos_minus, Hc, Hs. pose proof (sin2_cos2 v) as H. unfold Rsqr in H. lra. }
  assert (Hh : sin ((u - v) / 2) = 0).
  { pose proof (sin_half_sqr (u - v)) as H. rewrite Hd in H. nra. }
  apply sin_zero_range in Hh; lra.
Qed.

(** In the ranges of the data model two coordinate pairs name the same
    point exactly when they are equal, or differ by a full turn of longitude
    (the antimeridian, written -180 and 180), or are both the same pole. *)
Lemma same_point_coordinates (lat1 lon1 lat2 lon2 : R) :
  -90 <= lat1 <= 90 -> -180 <= lon1 <= 180 ->
  -90 <= lat2 <= 90 -> -180 <= lon2 <= 180 ->
  XReal.same_point lat1 lon1 lat2 lon2 <->
  lat1 = lat2 /\ (lon1 = lon2 \/ Rabs (lon1 - lon2) = 360 \/ Rabs lat1 = 90).
Proof.
  intros Hlat1 Hlon1 Hlat2 Hlon2. pose proof PI_RGT_0 as Hpi.
  unfold XReal.same_point, XReal.unit_vector. split.
  - intros [= Hx Hy Hz].
    assert (Hlat : lat1 = lat2).
    { apply rad_inj, sin_inj; [now apply rad_lat_range .. | assumption]. }
    subst lat2. split; [reflexivity|].
    destruct (Req_dec (cos (rad lat1)) 0) as [Hc|Hc].
    + right; right. apply cos_zero_range in Hc; [|now apply rad_lat_range].
      unfold XReal.rad in Hc.
      destruct Hc as [Hc|Hc]; [rewrite Rabs_left | rewrite Rabs_right]; nra.
    + apply Rmult_eq_reg_l in Hx; [|assumption].
      apply Rmult_eq_reg_l in Hy; [|assumption].
      destruct (same_direction (rad lon1) (rad lon2)) as [H|[H|H]];
        try assumption; try (now apply rad_lon_range).
      * right; left. unfold XReal.rad in H. rewrite Rabs_left; nra.
      * left. now apply rad_inj.
      * right; left. unfold XReal.rad in H. rewrite Rabs_right; nra.
  - intros [<- [<-|[H|H]]]; [reflexivity| |].
    + assert (Hturn : rad lon1 = rad lon2 + 2 * PI \/ rad lon2 = rad lon1 + 2 * PI).
      { unfold XReal.rad.
        destruct (Rle_dec 0 (lon1 - lon2));
          [rewrite Rabs_right in H | rewrite Rabs_left in H]; try lra;
          [left | right]; nra. }
      destruct Hturn as [E|E]; rewrite E, cos_plus, sin_plus, cos_2PI, sin_2PI;
        apply triple_eq; ring.
    + assert (Hc : cos (rad lat1) = 0).
      { assert (Hpole : rad lat1 = PI / 2 \/ rad lat1 = - (PI / 2)).
        { unfold XReal.rad.
          destruct (Rle_dec 0 lat1);
            [rewrite Rabs_right in H | rewrite Rabs_left in H]; try lra;
            [left | right]; nra. }
        destruct Hpole as [-> | ->]; [|rewrite cos_neg]; apply cos_PI2. }
      rewrite Hc. apply triple_eq; ring.
Qed.

End SamePoint.

Section DistanceMetric.
Local Open Scope R_scope.
Import Aiaiail.

(** C7: for all points A and B with latitude in [-90, 90] and longitude in
    [-180, 180], [haversine(A, B) = haversine(B, A)], [haversine(A, A) = 0],
    the distance is non-negative, and it is zero exactly when A and B are the
    same point of the sphere: equal coordinates, or the same meridian written
    -180 and 180, or the same pole. *)
Theorem haversine_metric (lon1 lat1 lon2 lat2 : R) :
  -90 <= lat1 <= 90 -> -180 <= lon1 <= 180 ->
  -90 <= lat2 <= 90 -> -180 <= lon2 <= 180 ->
  haversine (Fin lon1) (Fin lat1) (Fin lon2) (Fin lat2)
  = haversine (Fin lon2) (Fin lat2) (Fin lon1) (Fin lat1)
  /\ haversine (Fin lon1) (Fin lat1) (Fin lon1) (Fin lat1) = Ok (Fin 0)
  /\ exists d : R,
       haversine (Fin lon1) (Fin lat1) (Fin lon2) (Fin lat2) = Ok (Fin d)
       /\ 0 <= d
       /\ (d = 0 <-> XReal.same_point lat1 lon1 lat2 lon2)
       /\ (d = 0 <->
           lat1 = lat2
           /\ (lon1 = lon2 \/ Rabs (lon1 - lon2) = 360 \/ Rabs lat1 = 90)).
Proof.
  intros Hlat1 Hlon1 Hlat2 Hlon2.
  assert (Hz : XReal.haversine_R lon1 lat1 lon2 lat2 = 0
               <-> XReal.same_point lat1 lon1 lat2 lon2).
  { rewrite haversine_R_zero_iff. apply hav_a_zero_iff. }
  split; [|split].
  - rewrite !haversine_fin. do 2 f_equal.
    unfold XReal.haversine_R. now rewrite hav_a_sym.
  - rewrite haversine_fin. do 2 f_equal.
    apply haversine_R_zero_iff, hav_a_zero_iff. reflexivity.
  - exists (XReal.haversine_R lon1 lat1 lon2 lat2).
    split; [apply haversine_fin|]. split; [apply haversine_R_nonneg|].
    split; [exact Hz|].
    rewrite Hz. now apply same_point_coordinates.
Qed.

Lemma haversine_metric_witness :
  (-90 <= 0 <= 90) /\ (-180 <= 0 <= 180) /\ (-90 <= 0 <= 90) /\ (-180 <= 1 <= 180)
  /\ haversine (Fin 0) (Fin 0) (Fin 1) (Fin 0)
     = haversine (Fin 1) (Fin 0) (Fin 0) (Fin 0).
Proof.
  assert (H1 : -90 <= 0 <= 90) by lra.
  assert (H2 : -180 <= 0 <= 180) by lra.
  assert (H3 : -180 <= 1 <= 180) by lra.
  repeat (split; [assumption|]).
  exact (proj1 (haversine_metric 0 0 1 0 H1 H2 H1 H3)).
Defined.

End DistanceMetric.

(** ** The metadata extractors (spec section 4.1) *)

Section ExtractorClaims.
Local Open Scope R_scope.

Lemma aiaiail_convert_to_degrees (d m s : R) :
  Aiaiail._convert_to_degrees (Aiaiail.VTuple [Fin d; Fin m; Fin s])
  = Ok (Fin (dms d m s)).
Proof.
  unfold Aiaiail._convert_to_degrees. cbn.
  rewrite !div_fin by discriminate. reflexivity.
Qed.

Lemma kivy_convert_to_degrees (dn dd mn md sn sd : Z) :
  dd <> 0%Z -> md <> 0%Z -> sd <> 0%Z ->
  Kivy._convert_to_degrees (Kivy.Ratios [(dn, dd); (mn, md); (sn, sd)])
  = Ok (Fin (dms (IZR dn / IZR dd) (IZR mn / IZR md) (IZR sn / IZR sd))).
Proof.
  intros Hd Hm Hs. unfold Kivy._convert_to_degrees. cbn.
  rewrite !div_fin by assumption. cbn.
  rewrite !div_fin by discriminate. reflexivity.
Qed.

Lemma neg_hemisphere (ref positive : string) (v : R) :
  (if negb (String.eqb ref positive) then fneg (Fin v) else Fin v)
  = Fin (hemisphere ref positive v).
Proof. unfold hemisphere. now destruct (String.eqb ref positive). Qed.

(** The Kivy extractor on complete GPS tags. *)
Lemma kivy_decimal_coordinates (tags : gmap string Kivy.tag_values)
    (dn dd mn md sn sd dn' dd' mn' md' sn' sd' : Z) (rlat rlon : string) :
  tags !! "GPS GPSLatitude" = Some (Kivy.Ratios [(dn, dd); (mn, md); (sn, sd)]) ->
  tags !! "GPS GPSLatitudeRef" = Some (Kivy.Ascii rlat) ->
  tags !! "GPS GPSLongitude" = Some (Kivy.Ratios [(dn', dd'); (mn', md'); (sn', sd')]) ->
  tags !! "GPS GPSLongitudeRef" = Some (Kivy.Ascii rlon) ->
  dd <> 0%Z -> md <> 0%Z -> sd <> 0%Z ->
  dd' <> 0%Z -> md' <> 0%Z -> sd' <> 0%Z ->
  rlat <> EmptyString -> rlon <> EmptyString ->
  Kivy.get_decimal_coordinates tags
  = Ok (Some (Fin (hemisphere (first_char rlat) "N"
                     (dms (IZR dn / IZR dd) (IZR mn / IZR md) (IZR sn / IZR sd)))),
        Some (Fin (hemisphere (first_char rlon) "E"
                     (dms (IZR dn' / IZR dd') (IZR mn' / IZR md') (IZR sn' / IZR sd'))))).
Proof.
  intros Hlat Hrlat Hlon Hrlon Hd Hm Hs Hd' Hm' Hs' Hnlat Hnlon.
  unfold Kivy.get_decimal_coordinates.
  rewrite Hlat, Hrlat, Hlon, Hrlon, !kivy_convert_to_degrees by assumption.
  destruct rlat as [|c rest]; [contradiction|].
  destruct rlon as [|c' rest']; [contradiction|].
  cbn [mbind result_bind bind Kivy.ref_differs first_char].
  now rewrite !neg_hemisphere.
Qed.

(** C9: both extractors turn a degree/minute/second triple [(d, m, s)] into
    [d + m/60 + s/3600], negate the latitude exactly when its reference is
    not "N", and negate the longitude exactly when its reference is not
    "E".  In the Kivy variant the three numbers are ratios, and the
    reference is the first character of the tag's string. *)
Theorem extractors_decimal_degrees :
  (forall (g : gmap string (Aiaiail.exif_value xreal))
          (d m s d' m' s' : R) (rlat rlon : string) dir,
      g !! "GPSLatitude" = Some (Aiaiail.VTuple [Fin d; Fin m; Fin s]) ->
      g !! "GPSLatitudeRef" = Some (Aiaiail.VString rlat) ->
      g !! "GPSLongitude" = Some (Aiaiail.VTuple [Fin d'; Fin m'; Fin s']) ->
      g !! "GPSLongitudeRef" = Some (Aiaiail.VString rlon) ->
      Aiaiail.img_direction (g !! "GPSImgDirection") = Ok dir ->
      Aiaiail.get_lat_lon_direction (Some g)
      = Ok (Some (Fin (hemisphere rlat "N" (dms d m s))),
            Some (Fin (hemisphere rlon "E" (dms d' m' s'))),
            dir))
  /\ (forall (tags : gmap string Kivy.tag_values)
             (dn dd mn md sn sd dn' dd' mn' md' sn' sd' : Z) (rlat rlon : string),
      tags !! "GPS GPSLatitude" = Some (Kivy.Ratios [(dn, dd); (mn, md); (sn, sd)]) ->
      tags !! "GPS GPSLatitudeRef" = Some (Kivy.Ascii rlat) ->
      tags !! "GPS GPSLongitude" = Some (Kivy.Ratios [(dn', dd'); (mn', md'); (sn', sd')]) ->
      tags !! "GPS GPSLongitudeRef" = Some (Kivy.Ascii rlon) ->
      dd <> 0%Z -> md <> 0%Z -> sd <> 0%Z ->
      dd' <> 0%Z -> md' <> 0%Z -> sd' <> 0%Z ->
      rlat <> EmptyString -> rlon <> EmptyString ->
      Kivy.get_decimal_coordinates tags
      = Ok (Some (Fin (hemisphere (first_char rlat) "N"
                         (dms (IZR dn / IZR dd) (IZR mn / IZR md) (IZR sn / IZR sd)))),
            Some (Fin (hemisphere (first_char rlon) "E"
                         (dms (IZR dn' / IZR dd') (IZR mn' / IZR md') (IZR sn' / IZR sd')))))).
Proof.
  split.
  - intros g d m s d' m' s' rlat rlon dir Hlat Hrlat Hlon Hrlon Hdir.
    unfold Aiaiail.get_lat_lon_direction.
    destruct (decide (g = ∅)) as [->|_]; [now rewrite lookup_empty in Hlat|].
    rewrite Hlat, Hrlat, Hlon, Hrlon, Hdir, !aiaiail_convert_to_degrees.
    cbn [mbind result_bind bind Aiaiail.differs].
    now rewrite !neg_hemisphere.
  - intros tags dn dd mn md sn sd dn' dd' mn' md' sn' sd' rlat rlon.
    apply kivy_decimal_coordinates.
Qed.

Lemma extractors_decimal_degrees_witness :
  Aiaiail.get_lat_lon_direction (Some sample_gps)
  = Ok (Some (Fin (hemisphere "N" "N" (dms 50 5 15))),
        Some (Fin (hemisphere "E" "E" (dms 14 25 30))),
        Some (Aiaiail.VRational (Fin 90)))
  /\ Kivy.get_decimal_coordinates equator_tags
     = Ok (Some (Fin (hemisphere "N" "N" (dms (0 / 1) (0 / 1) (0 / 1)))),
           Some (Fin (hemisphere "E" "E" (dms (10 / 1) (0 / 1) (0 / 1))))).
Proof.
  split.
  - apply (proj1 extractors_decimal_degrees); reflexivity.
  - apply (proj2 extractors_decimal_degrees equator_tags
             0%Z 1%Z 0%Z 1%Z 0%Z 1%Z 10%Z 1%Z 0%Z 1%Z 0%Z 1%Z "N" "E");
      try reflexivity; discriminate.
Defined.

End ExtractorClaims.

(** ** Truthiness of the coordinates in the Kivy variant *)

Section TruthinessClaims.
Local Open Scope R_scope.

(** A record is appended only when both coordinates are true. *)
Lemma kivy_scan_file_falsy {F : Type} `{PyFloat F}
    (filepath : string) (tags : gmap string Kivy.tag_values)
    (images : list (Kivy.image F)) (lat lon : option F) :
  Kivy.get_decimal_coordinates tags = Ok (lat, lon) ->
  Kivy.truth lat = false \/ Kivy.truth lon = false ->
  Kivy.scan_file filepath (Ok tags) images = images.
Proof.
  intros E Hfalse. unfold Kivy.scan_file. cbn [mbind result_bind bind].
  rewrite E. cbn [mbind result_bind bind].
  destruct (Kivy.get_orientation tags) as [o|e]; cbn [mbind result_bind bind];
    [|reflexivity].
  destruct Hfalse as [-> | ->]; [reflexivity|].
  now rewrite andb_false_r.
Qed.

Lemma equator_coordinates :
  Kivy.get_decimal_coordinates equator_tags = Ok (Some (Fin 0), Some (Fin 10)).
Proof.
  rewrite (kivy_decimal_coordinates equator_tags
             0%Z 1%Z 0%Z 1%Z 0%Z 1%Z 10%Z 1%Z 0%Z 1%Z 0%Z 1%Z "N" "E");
    try reflexivity; try discriminate.
  unfold hemisphere, dms. cbn. do 3 f_equal; [f_equal|]; f_equal; field.
Qed.

(** C10: in the Kivy variant a photo whose extracted latitude or longitude is
    exactly 0.0 is not added to [images], although its coordinates are valid:
    [if lat and lon] tests the truth value of the floats, and 0.0 (like
    -0.0) is false.  So it is for the photo taken on the equator at
    0 deg N, 10 deg E. *)
Theorem zero_coordinate_excluded :
  (forall filepath (tags : gmap string Kivy.tag_values)
          (images : list (Kivy.image xreal)) lat lon,
      Kivy.get_decimal_coordinates tags = Ok (lat, lon) ->
      lat = Some (Fin 0) \/ lon = Some (Fin 0) ->
      Kivy.scan_file filepath (Ok tags) images = images)
  /\ (forall L filepath (tags : gmap string Kivy.tag_values)
             (images : list (Kivy.image PrimFloat.float)) lat lon (x : PrimFloat.float),
      @Kivy.get_decimal_coordinates _ (Binary64.binary64 L) tags = Ok (lat, lon) ->
      lat = Some x \/ lon = Some x ->
      PrimFloat.is_zero x = true ->
      @Kivy.scan_file _ (Binary64.binary64 L) filepath (Ok tags) images = images)
  /\ Kivy.get_decimal_coordinates equator_tags = Ok (Some (Fin 0), Some (Fin 10))
  /\ Kivy.scan_directory_for_images (F := xreal) [("equator.jpg", Ok equator_tags)] = []
  /\ @Kivy.scan_directory_for_images _ (Binary64.binary64 Binary64.glibc_trace)
       [("equator.jpg", Ok equator_tags)] = [].
Proof.
  split; [|split; [|split; [|split]]].
  - intros filepath tags images lat lon E Hzero.
    apply (kivy_scan_file_falsy _ _ _ _ _ E).
    assert (Hz : truthy (Fin 0) = false).
    { cbn. unfold XReal.truth. now rewrite (is_zero_lit_0). }
    destruct Hzero as [-> | ->]; [left | right]; exact Hz.
  - intros L filepath tags images lat lon x E Hzero Hx.
    apply (@kivy_scan_file_falsy _ (Binary64.binary64 L) _ _ _ _ _ E).
    assert (Hz : @truthy _ (Binary64.binary64 L) x = false).
    { unfold PrimFloat.is_zero, PrimFloat.zero in Hx. cbn. now rewrite Hx. }
    destruct Hzero as [-> | ->]; [left | right]; exact Hz.
  - exact equator_coordinates.
  - unfold Kivy.scan_directory_for_images. cbn [foldl fst snd].
    apply (kivy_scan_file_falsy _ _ _ _ _ equator_coordinates).
    left. cbn. unfold XReal.truth. now rewrite is_zero_lit_0.
  - vm_compute. reflexivity.
Qed.

End TruthinessClaims.

Section TruthinessWitness.

Lemma zero_coordinate_excluded_witness :
  Kivy.get_decimal_coordinates equator_tags = Ok (Some (Fin 0), Some (Fin 10))
  /\ Kivy.scan_file "equator.jpg" (Ok equator_tags) ([] : list (Kivy.image xreal)) = [].
Proof.
  pose proof (proj1 (proj2 (proj2 zero_coordinate_excluded))) as E.
  split; [exact E|].
  apply (proj1 zero_coordinate_excluded _ _ _ _ _ E). now left.
Defined.

End TruthinessWitness.

(** ** Further properties of the engine *)

Section EngineExtras.
Local Open Scope R_scope.
Import Aiaiail.
Local Abbreviation rad := XReal.rad.

(** Whole turns, for an integer number of turns of either sign. *)
Lemma cos_period_Z (x : R) (k : Z) : cos (x + 2 * IZR k * PI) = cos x.
Proof.
  assert (E : forall p, IZR (Z.pos p) = INR (Pos.to_nat p))
    by (intros p; now rewrite INR_IZR_INZ, positive_nat_Z).
  destruct k as [|p|p].
  - f_equal. lra.
  - rewrite (E p). apply cos_period.
  - rewrite <- (cos_period (x + 2 * IZR (Z.neg p) * PI) (Pos.to_nat p)).
    f_equal. rewrite <- (E p).
    change (Z.neg p) with (- Z.pos p)%Z. rewrite opp_IZR. lra.
Qed.

Lemma sin_period_Z (x : R) (k : Z) : sin (x + 2 * IZR k * PI) = sin x.
Proof.
  assert (E : forall p, IZR (Z.pos p) = INR (Pos.to_nat p))
    by (intros p; now rewrite INR_IZR_INZ, positive_nat_Z).
  destruct k as [|p|p].
  - f_equal. lra.
  - rewrite (E p). apply sin_period.
  - rewrite <- (sin_period (x + 2 * IZR (Z.neg p) * PI) (Pos.to_nat p)).
    f_equal. rewrite <- (E p).
    change (Z.neg p) with (- Z.pos p)%Z. rewrite opp_IZR. lra.
Qed.

Lemma rad_turns (x : R) (k : Z) : rad (x + 360 * IZR k) = rad x + 2 * IZR k * PI.
Proof. unfold XReal.rad. pose proof PI_RGT_0. field. Qed.

(** X1: the distance never exceeds half the circumference, PI * 6371 km, and
    reaches it at the antipode. *)
Theorem haversine_half_circumference (lon1 lat1 lon2 lat2 : R) :
  (exists d : R,
      haversine (Fin lon1) (Fin lat1) (Fin lon2) (Fin lat2) = Ok (Fin d)
      /\ 0 <= d <= PI * 6371)
  /\ haversine (Fin lon1) (Fin lat1) (Fin (lon1 + 180)) (Fin (- lat1))
     = Ok (Fin (PI * 6371)).
Proof.
  split.
  - exists (XReal.haversine_R lon1 lat1 lon2 lat2).
    split; [apply haversine_fin|]. split; [apply haversine_R_nonneg|].
    unfold XReal.haversine_R.
    pose proof (asin_bound (sqrt (XReal.hav_a lon1 lat1 lon2 lat2))). lra.
  - rewrite haversine_fin. do 2 f_equal. unfold XReal.haversine_R.
    assert (Ha : XReal.hav_a lon1 lat1 (lon1 + 180) (- lat1) = 1).
    { unfold XReal.hav_a.
      replace ((rad (- lat1) + - rad lat1) / 2) with (- rad lat1)
        by (unfold XReal.rad; field).
      replace ((rad (lon1 + 180) + - rad lon1) / 2) with (PI / 2)
        by (unfold XReal.rad; field).
      replace (rad (- lat1)) with (- rad lat1) by (unfold XReal.rad; field).
      rewrite sin_neg, cos_neg, sin_PI2.
      pose proof (sin2_cos2 (rad lat1)) as H. unfold Rsqr in H. nra. }
    rewrite Ha, sqrt_1, asin_1. field.
Qed.

(** *** Longitudes a whole turn apart *)

Ltac decide_pi :=
  repeat match goal with
         | |- context [Rlt_dec ?a ?b] =>
             destruct (Rlt_dec a b); try (exfalso; pose proof PI_RGT_0; nra)
         end.

Ltac eval_special :=
  cbn; unfold XReal.div, XReal.modulo, XReal.inf_signed;
  rewrite ?is_zero_lit by discriminate; decide_pi; cbn.

Lemma hav_a_wrap (lng lat plon plat : R) (k : Z) :
  XReal.hav_a (lng + 360 * IZR k) lat plon plat = XReal.hav_a lng lat plon plat.
Proof.
  unfold XReal.hav_a. rewrite !sin_half_sqr, rad_turns.
  replace (rad plon + - (rad lng + 2 * IZR k * PI))
    with (rad plon + - rad lng + 2 * IZR (- k) * PI) by (rewrite opp_IZR; ring).
  now rewrite cos_period_Z.
Qed.

Lemma bearing_R_wrap (lat lng plat plon : R) (k : Z) :
  XReal.bearing_R lat (lng + 360 * IZR k) plat plon = XReal.bearing_R lat lng plat plon.
Proof.
  unfold XReal.bearing_R, XReal.bearing_x, XReal.bearing_y.
  replace (rad (plon + - (lng + 360 * IZR k)))
    with (rad (plon + - lng) + 2 * IZR (- k) * PI)
    by (unfold XReal.rad; rewrite opp_IZR; field).
  now rewrite sin_period_Z, cos_period_Z.
Qed.

Lemma haversine_wrap (lng lat : R) (k : Z) (plon plat : xreal) :
  haversine (Fin (lng + 360 * IZR k)) (Fin lat) plon plat
  = haversine (Fin lng) (Fin lat) plon plat.
Proof.
  destruct plon as [plon| | |], plat as [plat| | |].
  1: { rewrite !haversine_fin. unfold XReal.haversine_R. now rewrite hav_a_wrap. }
  all: unfold haversine; eval_special; reflexivity.
Qed.

Lemma compute_bearing_wrap (lng lat : R) (k : Z) (plon plat : xreal) :
  compute_bearing (Fin lat) (Fin (lng + 360 * IZR k)) plat plon
  = compute_bearing (Fin lat) (Fin lng) plat plon.
Proof.
  destruct plon as [plon| | |], plat as [plat| | |].
  1: { rewrite !compute_bearing_fin. now rewrite bearing_R_wrap. }
  all: unfold compute_bearing; eval_special; reflexivity.
Qed.

(** X2: the viewpoint's longitude counts modulo 360: a map centre that has
    been panned whole turns around the globe selects the same records, at
    the same distances, whatever the records are. *)
Theorem selection_longitude_wrap (lat lng : R) (k : Z) (rot : xreal)
    (photo_list : list (photo xreal)) :
  update_left_pane photo_list (Fin lat) (Fin (lng + 360 * IZR k)) rot
  = update_left_pane photo_list (Fin lat) (Fin lng) rot.
Proof.
  unfold update_left_pane. f_equal.
  induction photo_list as [|p l IH]; [reflexivity|].
  rewrite !selected_photos_cons, IH. f_equal.
  unfold select_photo. now rewrite haversine_wrap, compute_bearing_wrap.
Qed.

(** *** Bearings along a meridian and along the equator *)

Lemma Rfmod_small (x m : R) : 0 <= x < m -> XReal.Rfmod x m = x.
Proof. intros Hx. apply (Rfmod_eq x m x 0); lra. Qed.

Lemma Rfmod_plus_turn (x m : R) : 0 <= x < m -> XReal.Rfmod (x + m) m = x.
Proof. intros Hx. apply (Rfmod_eq (x + m) m x 1); lra. Qed.

Lemma bearing_y_meridian (lat1 lat2 lon : R) :
  XReal.bearing_x lat1 lon lat2 lon = 0
  /\ XReal.bearing_y lat1 lon lat2 lon = sin (rad lat2 - rad lat1).
Proof.
  unfold XReal.bearing_x, XReal.bearing_y.
  replace (rad (lon + - lon)) with 0 by (unfold XReal.rad; field).
  rewrite sin_0, cos_0, sin_minus. split; ring.
Qed.

(** X3: in exact arithmetic, along a meridian the bearing is 0 (north)
    towards a higher latitude and 180 (south) towards a lower one; the pair
    from the north pole to the south pole is not covered. *)
Theorem bearing_along_meridian (lat1 lat2 lon : R) :
  -90 <= lat1 <= 90 -> -90 <= lat2 <= 90 ->
  (lat1 < lat2 ->
   compute_bearing (Fin lat1) (Fin lon) (Fin lat2) (Fin lon) = Ok (Fin 0))
  /\ (lat2 < lat1 -> lat1 - lat2 < 180 ->
      compute_bearing (Fin lat1) (Fin lon) (Fin lat2) (Fin lon) = Ok (Fin 180)).
Proof.
  intros H1 H2. pose proof PI_RGT_0 as Hpi.
  destruct (bearing_y_meridian lat1 lat2 lon) as [Hx Hy].
  pose proof (rad_lat_range lat1 H1) as R1. pose proof (rad_lat_range lat2 H2) as R2.
  split.
  - intros Hlt. rewrite compute_bearing_fin. do 2 f_equal.
    unfold XReal.bearing_R. rewrite Hx, Hy.
    assert (Hd : 0 < rad lat2 - rad lat1) by (unfold XReal.rad; nra).
    assert (Ha : XReal.Ratan2 0 (sin (rad lat2 - rad lat1)) = 0).
    { unfold XReal.Ratan2.
      destruct (Rlt_dec 0 (sin (rad lat2 - rad lat1))) as [Hs|Hs].
      - unfold Rdiv. now rewrite Rmult_0_l, atan_0.
      - destruct (Req_dec (rad lat2 - rad lat1) PI) as [E|E].
        + rewrite E, sin_PI. destruct (Rlt_dec 0 0); [lra|].
          destruct (Rlt_dec 0 0); [lra | reflexivity].
        + exfalso. apply Hs. apply sin_gt_0; lra. }
    rewrite Ha. replace (0 * (180 / PI) + 360) with (0 + 360) by ring.
    apply Rfmod_plus_turn. lra.
  - intros Hlt Hpole. rewrite compute_bearing_fin. do 2 f_equal.
    unfold XReal.bearing_R. rewrite Hx, Hy.
    assert (Hd : - PI < rad lat2 - rad lat1 < 0) by (unfold XReal.rad; split; nra).
    pose proof (sin_lt_0_var (rad lat2 - rad lat1) ltac:(lra) ltac:(lra)) as Hs.
    assert (Ha : XReal.Ratan2 0 (sin (rad lat2 - rad lat1)) = PI).
    { unfold XReal.Ratan2.
      destruct (Rlt_dec 0 (sin (rad lat2 - rad lat1))); [lra|].
      destruct (Rlt_dec (sin (rad lat2 - rad lat1)) 0); [|lra].
      destruct (Rle_dec 0 0); [|lra].
      unfold Rdiv. rewrite Rmult_0_l, atan_0. ring. }
    rewrite Ha. replace (PI * (180 / PI) + 360) with (180 + 360) by (field; lra).
    apply Rfmod_plus_turn. lra.
Qed.

Lemma bearing_along_meridian_witness :
  compute_bearing (Fin 0) (Fin 10) (Fin 1) (Fin 10) = Ok (Fin 0)
  /\ compute_bearing (Fin 1) (Fin 10) (Fin 0) (Fin 10) = Ok (Fin 180).
Proof.
  split.
  - apply (proj1 (bearing_along_meridian 0 1 10 ltac:(lra) ltac:(lra))). lra.
  - apply (proj2 (bearing_along_meridian 1 0 10 ltac:(lra) ltac:(lra))); lra.
Defined.

(** X4: along the equator the bearing is 90 (east) towards a longitude less
    than half a turn ahead and 270 (west) towards one less than half a turn
    behind. *)
Theorem bearing_along_equator (lon1 lon2 : R) :
  (0 < lon2 - lon1 < 180 ->
   compute_bearing (Fin 0) (Fin lon1) (Fin 0) (Fin lon2) = Ok (Fin 90))
  /\ (-180 < lon2 - lon1 < 0 ->
      compute_bearing (Fin 0) (Fin lon1) (Fin 0) (Fin lon2) = Ok (Fin 270)).
Proof.
  pose proof PI_RGT_0 as Hpi.
  assert (Hx : XReal.bearing_x 0 lon1 0 lon2 = sin (rad (lon2 + - lon1))).
  { unfold XReal.bearing_x. replace (rad 0) with 0 by (unfold XReal.rad; field).
    rewrite cos_0. ring. }
  assert (Hy : XReal.bearing_y 0 lon1 0 lon2 = 0).
  { unfold XReal.bearing_y. replace (rad 0) with 0 by (unfold XReal.rad; field).
    rewrite sin_0. ring. }
  split; intros Hd; rewrite compute_bearing_fin; do 2 f_equal;
    unfold XReal.bearing_R; rewrite Hx, Hy; unfold XReal.Ratan2;
    (destruct (Rlt_dec 0 0); [lra|]); (destruct (Rlt_dec 0 0); [lra|]).
  - assert (Hs : 0 < sin (rad (lon2 + - lon1)))
      by (apply sin_gt_0; unfold XReal.rad; nra).
    destruct (Rlt_dec 0 (sin (rad (lon2 + - lon1)))); [|lra].
    replace (PI / 2 * (180 / PI) + 360) with (90 + 360) by (field; lra).
    apply Rfmod_plus_turn. lra.
  - assert (Hs : sin (rad (lon2 + - lon1)) < 0)
      by (apply sin_lt_0_var; unfold XReal.rad; nra).
    destruct (Rlt_dec 0 (sin (rad (lon2 + - lon1)))); [lra|].
    destruct (Rlt_dec (sin (rad (lon2 + - lon1))) 0); [|lra].
    replace (- (PI / 2) * (180 / PI) + 360) with 270 by (field; lra).
    apply Rfmod_small. lra.
Qed.

Lemma bearing_along_equator_witness :
  compute_bearing (Fin 0) (Fin 0) (Fin 0) (Fin 1) = Ok (Fin 90)
  /\ compute_bearing (Fin 0) (Fin 1) (Fin 0) (Fin 0) = Ok (Fin 270).
Proof.
  split.
  - apply (proj1 (bearing_along_equator 0 1)). lra.
  - apply (proj2 (bearing_along_equator 1 0)). lra.
Defined.
End EngineExtras.

Section EngineExtras2.
Local Open Scope R_scope.
Import Aiaiail.
Local Abbreviation rad := XReal.rad.

(** *** The signed offset *)

(** X5: [angle_difference(a, b)] is the signed offset of [b] from [a]: for an
    offset in [-180, 180), up to whole turns, it returns the offset. *)
Theorem angle_difference_offset (a delta : R) (k : Z) :
  -180 <= delta < 180 ->
  angle_difference (Fin a) (Fin (a + delta + 360 * IZR k)) = Ok (Fin delta).
Proof.
  intros Hd. rewrite angle_difference_fin. do 2 f_equal.
  unfold XReal.angle_difference_R.
  rewrite (Rfmod_eq _ 360 (delta + 180) (k + 1)); [lra | lra | lra |].
  rewrite plus_IZR. lra.
Qed.

Lemma angle_difference_offset_witness :
  angle_difference (Fin 350) (Fin (350 + 20 + 360 * IZR 0)) = Ok (Fin 20).
Proof. apply angle_difference_offset. lra. Defined.

Lemma Rfmod_decompose (x m : R) :
  0 < m -> exists q : Z, x = IZR q * m + XReal.Rfmod x m.
Proof. intros Hm. exists (Zfloor (x / m)). unfold XReal.Rfmod. ring. Qed.

(** Turning round changes a difference of at most 30 into one of at least
    150. *)
Lemma angle_difference_turn_round (rot b : R) :
  Rabs (XReal.angle_difference_R rot b) <= 30 ->
  150 <= Rabs (XReal.angle_difference_R (rot + 180) b).
Proof.
  unfold XReal.angle_difference_R. intros H.
  destruct (Rfmod_decompose (b - rot + 180 + 360) 360 ltac:(lra)) as [q Hq].
  pose proof (Rfmod_bound (b - rot + 180 + 360) 360 ltac:(lra)) as Hb.
  set (m := XReal.Rfmod (b - rot + 180 + 360) 360) in *.
  assert (Hm : -30 <= m - 180 <= 30).
  { pose proof (Rle_abs (m - 180)). pose proof (Rle_abs (- (m - 180))) as Hn.
    rewrite Rabs_Ropp in Hn. lra. }
  destruct (Rle_dec 180 m) as [Hge|Hlt].
  - rewrite (Rfmod_eq _ 360 (m - 180) q); [|lra|lra|lra].
    rewrite Rabs_left; lra.
  - rewrite (Rfmod_eq _ 360 (m + 180) (q - 1)); [|lra|lra|rewrite minus_IZR; lra].
    rewrite Rabs_right; lra.
Qed.

(** X6: looking the opposite way shows none of the same records: a record
    selected at rotation [rot] is not selected at [rot + 180]. *)
Theorem opposite_views_disjoint (lat lng rot : R) (photo_list : list (photo xreal)) :
  Forall finite_photo photo_list ->
  forall res res',
    update_left_pane photo_list (Fin lat) (Fin lng) (Fin rot) = Ok res ->
    update_left_pane photo_list (Fin lat) (Fin lng) (Fin (rot + 180)) = Ok res' ->
    forall p, In p (map snd res) -> ~ In p (map snd res').
Proof.
  intros Hfin res res' E E' p Hin Hin'.
  apply (update_left_pane_In _ _ _ _ _ E) in Hin as [Hp (d & Ed)].
  apply (update_left_pane_In _ _ _ _ _ E') in Hin' as [_ (d' & Ed')].
  assert (Hf : finite_photo p).
  { rewrite Forall_forall in Hfin. apply Hfin. now apply list_elem_of_In. }
  rewrite select_photo_finite in Ed, Ed' by assumption.
  destruct (Rle_dec _ 30) as [H30|]; [|discriminate].
  destruct (Rle_dec _ 30) as [H30'|]; [|discriminate].
  apply angle_difference_turn_round in H30. lra.
Qed.

Lemma opposite_views_disjoint_witness :
  Forall finite_photo [east_photo]
  /\ forall res res',
      update_left_pane [east_photo] (Fin 0) (Fin 0) (Fin 90) = Ok res ->
      update_left_pane [east_photo] (Fin 0) (Fin 0) (Fin (90 + 180)) = Ok res' ->
      forall p, In p (map snd res) -> ~ In p (map snd res').
Proof.
  assert (H : Forall finite_photo [east_photo]) by (repeat constructor).
  split; [exact H|]. exact (opposite_views_disjoint 0 0 90 [east_photo] H).
Defined.

(** *** A record at the viewpoint itself *)

(** X7: a record taken at the viewpoint's own coordinates has distance 0 and
    bearing 0, so it is selected exactly when the rotation is within 30
    degrees of north. *)
Theorem record_at_viewpoint (lat lng rot : R) (fp : string) (dir : exif_value xreal) :
  haversine (Fin lng) (Fin lat) (Fin lng) (Fin lat) = Ok (Fin 0)
  /\ compute_bearing (Fin lat) (Fin lng) (Fin lat) (Fin lng) = Ok (Fin 0)
  /\ select_photo (Fin lat) (Fin lng) (Fin rot) (Photo fp (Fin lat) (Fin lng) dir)
     = Ok (if Rle_dec (Rabs (XReal.angle_difference_R rot 0)) 30
           then Some (Fin 0, Photo fp (Fin lat) (Fin lng) dir) else None).
Proof.
  assert (Hd : XReal.haversine_R lng lat lng lat = 0).
  { apply haversine_R_zero_iff, hav_a_zero_iff. reflexivity. }
  assert (Hb : XReal.bearing_R lat lng lat lng = 0).
  { unfold XReal.bearing_R.
    destruct (bearing_y_meridian lat lat lng) as [-> ->].
    replace (rad lat - rad lat) with 0 by ring. rewrite sin_0.
    unfold XReal.Ratan2. destruct (Rlt_dec 0 0); [lra|].
    replace (0 * (180 / PI) + 360) with (0 + 360) by ring.
    apply Rfmod_plus_turn. lra. }
  split; [|split].
  - now rewrite haversine_fin, Hd.
  - now rewrite compute_bearing_fin, Hb.
  - now rewrite select_photo_fin, Hd, Hb.
Qed.

End EngineExtras2.

(** *** The selection in any semantics of [float] *)

Section GenericSelection.
Context {F : Type} `{PyFloat F}.
Import Aiaiail.

Lemma select_photo_distance (lat lng rot : F) (p : photo F) (d : F) (q : photo F) :
  select_photo lat lng rot p = Ok (Some (d, q)) ->
  haversine lng lat (longitude p) (latitude p) = Ok d.
Proof.
  unfold select_photo. intros E.
  destruct (haversine _ _ _ _) as [dist|]; [|discriminate].
  destruct (compute_bearing _ _ _ _) as [b|]; [|discriminate].
  cbn in E. destruct (angle_difference rot b) as [diff|]; [|discriminate].
  cbn in E. destruct (fle _ _); congruence.
Qed.

(** X8: whatever the arithmetic, the engine neither invents nor duplicates
    records: each pair of the result is a record of the input with its own
    distance from the viewpoint, the records of the result are a
    rearrangement of a subsequence of the input, and so there are no more of
    them than in the input. *)
Theorem selection_provenance (lat lng rot : F) (photo_list : list (photo F)) res :
  update_left_pane photo_list lat lng rot = Ok res ->
  (forall d p, In (d, p) res ->
     In p photo_list /\ haversine lng lat (longitude p) (latitude p) = Ok d)
  /\ (exists kept, sublist kept photo_list /\ Permutation (map snd res) kept)
  /\ length res <= length photo_list.
Proof.
  unfold update_left_pane. intros E.
  destruct (selected_photos lat lng rot photo_list) as [sel|] eqn:Esel; [|discriminate].
  injection E as <-.
  pose proof (selected_photos_sublist _ _ _ _ _ Esel) as Hsub.
  pose proof (sort_by_key_Permutation sel) as Hperm.
  split; [|split].
  - intros d p Hin. rewrite Hperm in Hin.
    apply (selected_photos_In _ _ _ _ _ Esel) in Hin as (q & Hq & Eq).
    pose proof (select_photo_same _ _ _ _ _ _ Eq) as ->.
    split; [assumption|]. now apply select_photo_distance in Eq.
  - exists (map snd sel). split; [assumption|]. now rewrite Hperm.
  - rewrite Hperm, <- (length_map snd sel). now apply sublist_length.
Qed.

Lemma selected_photos_app (lat lng rot : F) (l1 l2 : list (photo F)) :
  selected_photos lat lng rot (l1 ++ l2)
  = (s1 ← selected_photos lat lng rot l1;
     s2 ← selected_photos lat lng rot l2;
     Ok (s1 ++ s2)).
Proof.
  induction l1 as [|p l1 IH]; cbn [app].
  - cbn. now destruct (selected_photos lat lng rot l2).
  - rewrite !selected_photos_cons, IH.
    destruct (select_photo lat lng rot p) as [o|]; [|reflexivity].
    cbn [mbind result_bind bind].
    destruct (selected_photos lat lng rot l1) as [s1|]; [|reflexivity].
    cbn [mbind result_bind bind].
    destruct (selected_photos lat lng rot l2) as [s2|]; [|reflexivity].
    cbn. now destruct o.
Qed.

(** X9: the selection from two lists put end to end is the selections from
    each, put together and sorted again: it returns when both do, with the
    same pairs; and it raises when either does. *)
Theorem selection_of_concatenation (lat lng rot : F) (l1 l2 : list (photo F)) :
  (forall r1 r2,
      update_left_pane l1 lat lng rot = Ok r1 ->
      update_left_pane l2 lat lng rot = Ok r2 ->
      exists r, update_left_pane (l1 ++ l2) lat lng rot = Ok r
                /\ Permutation r (r1 ++ r2))
  /\ (raises (update_left_pane l1 lat lng rot)
      \/ raises (update_left_pane l2 lat lng rot) ->
      raises (update_left_pane (l1 ++ l2) lat lng rot)).
Proof.
  unfold update_left_pane, raises. rewrite selected_photos_app.
  destruct (selected_photos lat lng rot l1) as [s1|e1];
    destruct (selected_photos lat lng rot l2) as [s2|e2]; cbn; split;
    try (intros; discriminate).
  - intros r1 r2 [= <-] [= <-]. eexists. split; [reflexivity|].
    now rewrite !sort_by_key_Permutation.
  - intros [[e He]|[e He]]; discriminate.
  - intros _. eauto.
  - intros _. eauto.
  - intros _. eauto.
Qed.

End GenericSelection.

Section GenericSelectionWitness.
Import Aiaiail.

Lemma east_photo_returns :
  exists res, update_left_pane [east_photo] (Fin 0) (Fin 0) (Fin 90) = Ok res.
Proof.
  destruct (selected_photos_no_inf (Fin 0) (Fin 0) (Fin 90) [east_photo])
    as (sel & E & _); [reflexivity | reflexivity | repeat constructor |].
  exists (sort_by_key sel). unfold update_left_pane. now rewrite E.
Defined.

Lemma selection_provenance_witness :
  exists res,
    update_left_pane [east_photo] (Fin 0) (Fin 0) (Fin 90) = Ok res
    /\ length res <= 1.
Proof.
  destruct east_photo_returns as (res & E).
  exists res. split; [exact E|].
  exact (proj2 (proj2 (selection_provenance _ _ _ _ _ E))).
Defined.

Lemma selection_of_concatenation_witness :
  exists r1 r,
    update_left_pane [east_photo] (Fin 0) (Fin 0) (Fin 90) = Ok r1
    /\ update_left_pane ([east_photo] ++ [east_photo]) (Fin 0) (Fin 0) (Fin 90) = Ok r
    /\ Permutation r (r1 ++ r1).
Proof.
  destruct east_photo_returns as (r1 & E).
  destruct (proj1 (selection_of_concatenation (Fin 0) (Fin 0) (Fin 90)
                     [east_photo] [east_photo]) r1 r1 E E) as (r & Er & Hp).
  exists r1, r. repeat split; assumption.
Defined.

End GenericSelectionWitness.

(** *** Exceptions of the selection *)

Section SelectionExceptions.
Local Open Scope R_scope.
Import Aiaiail.

Ltac split_on_pi :=
  repeat match goal with
         | |- context [Rlt_dec ?a ?b] =>
             destruct (Rlt_dec a b); try (exfalso; pose proof PI_RGT_0; nra)
         end.

Ltac eval_infinite :=
  cbn; unfold XReal.div, XReal.modulo, XReal.inf_signed;
  rewrite ?is_zero_lit by discriminate; split_on_pi; cbn.

Lemma div_lit_raise (x : xreal) (z : Z) (e : exn) :
  z <> 0%Z -> XReal.div x (Fin (IZR z)) <> Raise e.
Proof. intros Hz. unfold XReal.div. now rewrite is_zero_lit. Qed.

Lemma modulo_lit_raise (x : xreal) (z : Z) (e : exn) :
  z <> 0%Z -> XReal.modulo x (Fin (IZR z)) <> Raise e.
Proof. intros Hz. unfold XReal.modulo. now rewrite is_zero_lit. Qed.

Lemma sin_raise (x : xreal) (e : exn) : XReal.sin x = Raise e -> e = ValueError.
Proof. destruct x; cbn; congruence. Qed.

Lemma cos_raise (x : xreal) (e : exn) : XReal.cos x = Raise e -> e = ValueError.
Proof. destruct x; cbn; congruence. Qed.

Lemma sqrt_raise (x : xreal) (e : exn) : XReal.sqrt x = Raise e -> e = ValueError.
Proof. destruct x; cbn; try congruence. destruct (Rlt_dec r 0); congruence. Qed.

Lemma asin_raise (x : xreal) (e : exn) : XReal.asin x = Raise e -> e = ValueError.
Proof.
  destruct x; cbn; try congruence.
  destruct (Rlt_dec r (-1)); [congruence|]. destruct (Rlt_dec 1 r); congruence.
Qed.

(** Follows an exception back through the statements to the operation that
    raised it. *)
Ltac trace_raise H :=
  cbn [fdiv fmod fpow math_sin math_cos math_sqrt math_asin math_atan2 lit
       xreal_float] in H;
  repeat match type of H with
         | (?m ≫= _) = Raise _ =>
             let E := fresh "E" in
             destruct m eqn:E; cbn [mbind result_bind bind] in H;
             [| injection H as <-;
                first [ now apply sin_raise in E
                      | now apply cos_raise in E
                      | now apply sqrt_raise in E
                      | now apply asin_raise in E
                      | now apply div_lit_raise in E
                      | now apply modulo_lit_raise in E
                      | discriminate E ] ]
         end.

Lemma haversine_raise (lon1 lat1 lon2 lat2 : xreal) (e : exn) :
  haversine lon1 lat1 lon2 lat2 = Raise e -> e = ValueError.
Proof. unfold haversine. intros H. trace_raise H. discriminate. Qed.

Lemma compute_bearing_raise (lat1 lon1 lat2 lon2 : xreal) (e : exn) :
  compute_bearing lat1 lon1 lat2 lon2 = Raise e -> e = ValueError.
Proof.
  unfold compute_bearing. intros H. trace_raise H.
  now apply modulo_lit_raise in H.
Qed.

Lemma angle_difference_raise (a1 a2 : xreal) (e : exn) :
  angle_difference a1 a2 <> Raise e.
Proof. unfold angle_difference. intros H. trace_raise H. discriminate. Qed.

Lemma select_photo_raise (lat lng rot : xreal) (p : photo xreal) (e : exn) :
  select_photo lat lng rot p = Raise e -> e = ValueError.
Proof.
  unfold select_photo. intros H.
  destruct (haversine _ _ _ _) as [d|e1] eqn:E1;
    [|injection H as <-; now apply haversine_raise in E1].
  destruct (compute_bearing _ _ _ _) as [b|e2] eqn:E2;
    [|injection H as <-; now apply compute_bearing_raise in E2].
  cbn [mbind result_bind bind] in H.
  destruct (angle_difference rot b) as [diff|e3] eqn:E3;
    [|now apply angle_difference_raise in E3].
  cbn [mbind result_bind bind] in H. destruct (fle _ _); discriminate.
Qed.

Lemma haversine_infinite_latitude (lon1 lat1 lon2 lat2 : xreal) :
  XReal.is_inf lat2 = true ->
  haversine lon1 lat1 lon2 lat2 = Raise ValueError.
Proof.
  intros Hinf. pose proof (haversine_raise lon1 lat1 lon2 lat2) as Hr.
  destruct (haversine lon1 lat1 lon2 lat2) as [d|e] eqn:E;
    [exfalso | now rewrite (Hr e eq_refl)].
  clear Hr. revert E. unfold haversine.
  destruct lat2; try discriminate; destruct lat1; eval_infinite; discriminate.
Qed.

(** X10: in exact arithmetic the only exception that a call of
    [update_left_pane] raises is ValueError, and a single record with an
    infinite latitude makes the whole call raise it, wherever the record
    stands in the list and whatever the viewpoint, the rotation and the
    other records are: no record is shown then. *)
Theorem infinite_latitude_raises (lat lng rot : xreal)
    (photo_list : list (photo xreal)) :
  (forall e, update_left_pane photo_list lat lng rot = Raise e -> e = ValueError)
  /\ (forall p, In p photo_list -> XReal.is_inf (latitude p) = true ->
        update_left_pane photo_list lat lng rot = Raise ValueError).
Proof.
  assert (Hsel : forall l e,
             selected_photos lat lng rot l = Raise e -> e = ValueError).
  { induction l as [|q l IH]; intros e; [discriminate|].
    rewrite selected_photos_cons.
    destruct (select_photo lat lng rot q) as [o|e1] eqn:E1;
      [|intros [= <-]; now apply select_photo_raise in E1].
    cbn [mbind result_bind bind].
    destruct (selected_photos lat lng rot l) as [sel|e2];
      [discriminate | intros [= <-]; now apply IH]. }
  split.
  - unfold update_left_pane. intros e.
    destruct (selected_photos lat lng rot photo_list) as [sel|e1] eqn:E1;
      [discriminate | intros [= <-]; now apply Hsel in E1].
  - intros p Hin Hinf.
    assert (Hp : select_photo lat lng rot p = Raise ValueError).
    { unfold select_photo. now rewrite haversine_infinite_latitude. }
    unfold update_left_pane.
    destruct (selected_photos lat lng rot photo_list) as [sel|e] eqn:E.
    + exfalso. clear Hsel. revert sel E.
      induction photo_list as [|q l IH]; [destruct Hin|]. intros sel.
      rewrite selected_photos_cons.
      destruct (select_photo lat lng rot q) as [o|] eqn:Eq; [|discriminate].
      cbn [mbind result_bind bind].
      destruct (selected_photos lat lng rot l) as [sel'|]; [|discriminate].
      intros _. destruct Hin as [->|Hin]; [congruence | eauto].
    + now rewrite (Hsel _ _ E).
Qed.

Lemma infinite_latitude_raises_witness :
  update_left_pane [east_photo; Photo "inf.jpg" PInf (Fin 0) (VNumber (Fin 0))]
    (Fin 0) (Fin 0) (Fin 90)
  = Raise ValueError.
Proof.
  apply (proj2 (infinite_latitude_raises (Fin 0) (Fin 0) (Fin 90) _)
           (Photo "inf.jpg" PInf (Fin 0) (VNumber (Fin 0)))).
  - right. left. reflexivity.
  - reflexivity.
Defined.

End SelectionExceptions.

(** ** Further properties of the extractors and the scans *)

(** *** The Pillow extractor and the scan *)

Section AiaiailExtractor.
Context {F : Type} `{PyFloat F}.
Import Aiaiail.

Lemma get_lat_lon_direction_tags (gps : option (gmap string (exif_value F)))
    (lat lon : option F) (dir : option (exif_value F)) :
  get_lat_lon_direction gps = Ok (lat, lon, dir) ->
  (is_Some lat ->
     exists g, gps = Some g /\ is_Some (g !! "GPSLatitude"))
  /\ (is_Some lon ->
        exists g, gps = Some g /\ is_Some lat /\ is_Some (g !! "GPSLatitudeRef")
                  /\ is_Some (g !! "GPSLongitude"))
  /\ (is_Some dir ->
        exists g, gps = Some g /\ is_Some lon /\ is_Some (g !! "GPSLongitudeRef")
                  /\ is_Some (g !! "GPSImgDirection")).
Proof.
  unfold get_lat_lon_direction. intros E.
  destruct gps as [g|]; [|injection E as <- <- <-; repeat split; intros []; discriminate].
  destruct (decide (g = ∅));
    [injection E as <- <- <-; repeat split; intros []; discriminate|].
  destruct (g !! "GPSLatitude") as [vlat|] eqn:Elat;
    [|injection E as <- <- <-; repeat split; intros []; discriminate].
  destruct (_convert_to_degrees vlat) as [a|]; [|discriminate].
  cbn [mbind result_bind bind] in E.
  destruct (g !! "GPSLatitudeRef") as [rlat|] eqn:Erlat;
    [|injection E as <- <- <-; repeat split; intros []; try discriminate; eauto].
  destruct (g !! "GPSLongitude") as [vlon|] eqn:Elon;
    [|injection E as <- <- <-; repeat split; intros []; try discriminate; eauto].
  destruct (_convert_to_degrees vlon) as [b|]; [|discriminate].
  cbn [mbind result_bind bind] in E.
  destruct (g !! "GPSLongitudeRef") as [rlon|] eqn:Erlon;
    [|injection E as <- <- <-; repeat split; intros []; try discriminate;
      eauto 10].
  destruct (img_direction (g !! "GPSImgDirection")) as [d|] eqn:Ed; [|discriminate].
  cbn [mbind result_bind bind] in E. injection E as <- <- <-.
  repeat split; intros [x Hx]; eauto 10.
  exists g. repeat split; eauto.
  destruct (g !! "GPSImgDirection") as [v|]; [eauto|].
  cbn in Ed. injection Ed as <-. discriminate.
Qed.

Lemma aiaiail_scan_file_acc (filepath : string)
    (exif : result (option (gmap string (exif_value F))))
    (photo_list : list (photo F)) :
  scan_file filepath exif photo_list = photo_list ++ scan_file filepath exif [].
Proof.
  unfold scan_file.
  destruct (exif ≫= get_lat_lon_direction) as [[[[lat|] [lon|]] [dir|]]|];
    now rewrite ?app_nil_r.
Qed.

Lemma aiaiail_scan_foldl_acc
    (files : list (string * result (option (gmap string (exif_value F)))))
    (acc : list (photo F)) :
  foldl (fun acc f => scan_file (fst f) (snd f) acc) acc files
  = acc ++ scan_directory files.
Proof.
  unfold scan_directory. revert acc.
  induction files as [|f files IH]; intros acc; cbn [foldl].
  - now rewrite app_nil_r.
  - rewrite IH, (IH (scan_file _ _ [])), (aiaiail_scan_file_acc _ _ acc).
    now rewrite app_assoc.
Qed.

Lemma scan_directory_cons (f : string * result (option (gmap string (exif_value F))))
    (files : list (string * result (option (gmap string (exif_value F))))) :
  scan_directory (f :: files)
  = scan_file (fst f) (snd f) [] ++ scan_directory files.
Proof. unfold scan_directory at 1. cbn [foldl]. apply aiaiail_scan_foldl_acc. Qed.

Lemma aiaiail_scan_file_In (filepath : string)
    (exif : result (option (gmap string (exif_value F)))) (p : photo F) :
  In p (scan_file filepath exif [])
  <-> exists e, exif = Ok e
        /\ get_lat_lon_direction e
           = Ok (Some (latitude p), Some (longitude p), Some (direction p))
        /\ Aiaiail.filepath p = filepath.
Proof.
  unfold scan_file. split.
  - destruct exif as [e|]; cbn [mbind result_bind bind]; [|intros []].
    destruct (get_lat_lon_direction e) as [[[[lat|] [lon|]] [dir|]]|] eqn:E;
      try (now intros []). cbn. intros [<-|[]]. now exists e.
  - intros (e & -> & E & <-). cbn [mbind result_bind bind]. rewrite E.
    destruct p; now left.
Qed.

Lemma scan_directory_In
    (files : list (string * result (option (gmap string (exif_value F)))))
    (p : photo F) :
  In p (scan_directory files)
  <-> exists e, In (Aiaiail.filepath p, Ok e) files
        /\ get_lat_lon_direction e
           = Ok (Some (latitude p), Some (longitude p), Some (direction p)).
Proof.
  induction files as [|[path exif] files IH].
  - split; [intros []|intros (e & [] & _)].
  - rewrite scan_directory_cons. cbn [fst snd].
    rewrite in_app_iff, aiaiail_scan_file_In, IH. split.
    + intros [(e & -> & E & <-)|(e & Hin & E)]; exists e; split;
        try assumption; [now left | now right].
    + intros (e & [[= <- ->]|Hin] & E); [left | right]; eauto.
Qed.

(** X11: [scan_directory] never raises, and its records are exactly the files
    whose metadata is complete, in the order of the files and each file at
    most once: a record is in the list if and only if some scanned file of
    that path could be opened and [get_lat_lon_direction] gave this
    latitude, longitude and direction for it.  A file that cannot be opened,
    whose extraction raises, or that lacks one of the three values leaves no
    record. *)
Theorem scan_directory_records
    (files : list (string * result (option (gmap string (exif_value F))))) :
  sublist (map Aiaiail.filepath (scan_directory files)) (map fst files)
  /\ forall p : photo F,
       In p (scan_directory files)
       <-> exists e, In (Aiaiail.filepath p, Ok e) files
             /\ get_lat_lon_direction e
                = Ok (Some (latitude p), Some (longitude p), Some (direction p)).
Proof.
  split; [|apply scan_directory_In].
  induction files as [|[path exif] files IH]; [constructor|].
  rewrite scan_directory_cons. cbn [fst snd map]. unfold scan_file.
  destruct (exif ≫= get_lat_lon_direction) as [[[[lat|] [lon|]] [dir|]]|];
    cbn [app map]; try (now apply sublist_cons).
  now apply sublist_skip.
Qed.

(** X12: [scan_directory] is compositional: scanning two batches of files one
    after the other gives the records of the first batch followed by the
    records of the second, so a file's record does not depend on the files
    scanned before or after it. *)
Theorem scan_directory_app
    (fs1 fs2 : list (string * result (option (gmap string (exif_value F))))) :
  scan_directory (fs1 ++ fs2) = scan_directory fs1 ++ scan_directory fs2.
Proof.
  induction fs1 as [|f fs1 IH]; [reflexivity|].
  rewrite <- app_comm_cons, !scan_directory_cons, IH. now rewrite app_assoc.
Qed.

(** X13: a file adds a record to the photo list only when its GPS
    information holds all five tags that [get_lat_lon_direction] reads:
    GPSLatitude, GPSLatitudeRef, GPSLongitude, GPSLongitudeRef and
    GPSImgDirection.  A missing tag raises no error: the file is left out
    silently. *)
Theorem recorded_photo_has_all_tags
    (filepath : string) (gps : option (gmap string (exif_value F)))
    (photo_list : list (photo F)) :
  scan_file filepath (Ok gps) photo_list <> photo_list ->
  exists g, gps = Some g
    /\ is_Some (g !! "GPSLatitude") /\ is_Some (g !! "GPSLatitudeRef")
    /\ is_Some (g !! "GPSLongitude") /\ is_Some (g !! "GPSLongitudeRef")
    /\ is_Some (g !! "GPSImgDirection").
Proof.
  unfold scan_file. cbn [mbind result_bind bind].
  destruct (get_lat_lon_direction gps) as [[[lat lon] dir]|] eqn:E;
    [|intros Hne; now contradiction Hne].
  destruct (get_lat_lon_direction_tags _ _ _ _ E) as (Hlat & Hlon & Hdir).
  destruct lat as [lat|]; [|intros Hne; now contradiction Hne].
  destruct lon as [lon|]; [|intros Hne; now contradiction Hne].
  destruct dir as [dir|]; [|intros Hne; now contradiction Hne].
  intros _.
  destruct Hlat as (g & -> & H1); [eauto|].
  destruct Hlon as (g2 & [= <-] & _ & H2 & H3); [eauto|].
  destruct Hdir as (g3 & [= <-] & _ & H4 & H5); [eauto|].
  exists g. auto 10.
Qed.

End AiaiailExtractor.

Section AiaiailExtractorExact.
Local Open Scope R_scope.
Import Aiaiail.

Lemma sample_gps_record :
  get_lat_lon_direction (Some sample_gps)
  = Ok (Some (Fin (dms 50 5 15)), Some (Fin (dms 14 25 30)),
        Some (VRational (Fin 90))).
Proof.
  assert (H1 : sample_gps !! "GPSLatitude" = Some (VTuple [Fin 50; Fin 5; Fin 15]))
    by reflexivity.
  assert (H2 : sample_gps !! "GPSLatitudeRef" = Some (VString "N")) by reflexivity.
  assert (H3 : sample_gps !! "GPSLongitude" = Some (VTuple [Fin 14; Fin 25; Fin 30]))
    by reflexivity.
  assert (H4 : sample_gps !! "GPSLongitudeRef" = Some (VString "E")) by reflexivity.
  assert (H5 : sample_gps !! "GPSImgDirection" = Some (VRational (Fin 90)))
    by reflexivity.
  unfold get_lat_lon_direction.
  destruct (decide (sample_gps = ∅)) as [E|_];
    [now rewrite E, lookup_empty in H1|].
  rewrite H1, H2, H3, H4, H5, !aiaiail_convert_to_degrees. reflexivity.
Qed.

Lemma recorded_photo_has_all_tags_witness :
  exists g, Some sample_gps = Some g
    /\ is_Some (g !! "GPSLatitude") /\ is_Some (g !! "GPSLatitudeRef")
    /\ is_Some (g !! "GPSLongitude") /\ is_Some (g !! "GPSLongitudeRef")
    /\ is_Some (g !! "GPSImgDirection").
Proof.
  apply (recorded_photo_has_all_tags (F := xreal) "prague.jpg" (Some sample_gps) []).
  unfold scan_file. cbn [mbind result_bind bind]. rewrite sample_gps_record.
  discriminate.
Defined.

Lemma div_raise (x y : xreal) (e : exn) :
  XReal.div x y = Raise e -> e = ZeroDivisionError /\ XReal.is_zero y = true.
Proof. unfold XReal.div. destruct (XReal.is_zero y); [now intros [= <-] | discriminate]. Qed.

Lemma index_raise (xs : list xreal) (i : nat) (e : exn) :
  index xs i = Raise e -> e = IndexError.
Proof. unfold index. destruct (xs !! i); [discriminate | now intros [= <-]]. Qed.

Lemma index_ok (xs : list xreal) (i : nat) (x : xreal) :
  index xs i = Ok x -> xs !! i = Some x.
Proof. unfold index. destruct (xs !! i); [now intros [= <-] | discriminate]. Qed.

Lemma convert_to_degrees_raise (value : exif_value xreal) (e : exn) :
  _convert_to_degrees value = Raise e -> e = IndexError \/ e = TypeError.
Proof.
  destruct value as [xs|x|x|str]; cbn [_convert_to_degrees].
  - destruct (index xs 0) as [d|e0] eqn:E0; cbn [mbind result_bind bind];
      [|intros [= <-]; left; now apply index_raise in E0].
    destruct (index xs 1) as [m|e1] eqn:E1; cbn [mbind result_bind bind];
      [|intros [= <-]; left; now apply index_raise in E1].
    destruct (index xs 2) as [s|e2] eqn:E2; cbn [mbind result_bind bind];
      [|intros [= <-]; left; now apply index_raise in E2].
    cbn [fdiv lit xreal_float]. unfold XReal.div.
    rewrite !is_zero_lit by discriminate. discriminate.
  - intros [= <-]. now right.
  - intros [= <-]. now right.
  - case_decide; intros [= <-]; [now left | now right].
Qed.

Lemma img_direction_raise (entry : option (exif_value xreal)) (e : exn) :
  img_direction entry = Raise e ->
  e = IndexError
  \/ (e = ZeroDivisionError
      /\ exists xs d, entry = Some (VTuple xs) /\ xs !! 1%nat = Some d
                      /\ XReal.is_zero d = true).
Proof.
  destruct entry as [[xs|x|x|str]|]; cbn [img_direction]; try discriminate.
  destruct (index xs 0) as [n|e0] eqn:E0; cbn [mbind result_bind bind];
    [|intros [= <-]; left; now apply index_raise in E0].
  destruct (index xs 1) as [d|e1] eqn:E1; cbn [mbind result_bind bind];
    [|intros [= <-]; left; now apply index_raise in E1].
  cbn [fdiv xreal_float].
  destruct (XReal.div n d) as [q|e2] eqn:E2; cbn [mbind result_bind bind];
    [discriminate|].
  intros [= <-]. apply div_raise in E2 as [-> Hz]. right. split; [reflexivity|].
  exists xs, d. apply index_ok in E1. auto.
Qed.

(** X14: a KeyError never leaves [get_lat_lon_direction]; in exact arithmetic
    the exceptions that do are IndexError, TypeError and ZeroDivisionError,
    and a ZeroDivisionError can only come from a direction given as a pair
    whose second component is zero (the degrees, minutes and seconds are
    divided by the constants 60.0 and 3600.0 only). *)
Theorem extractor_exceptions (gps : option (gmap string (exif_value xreal)))
    (e : exn) :
  get_lat_lon_direction gps = Raise e ->
  (e = IndexError \/ e = TypeError \/ e = ZeroDivisionError)
  /\ (e = ZeroDivisionError ->
        exists g xs d, gps = Some g
          /\ g !! "GPSImgDirection" = Some (VTuple xs)
          /\ xs !! 1%nat = Some d /\ XReal.is_zero d = true).
Proof.
  unfold get_lat_lon_direction.
  destruct gps as [g|]; [|discriminate].
  destruct (decide (g = ∅)); [discriminate|].
  destruct (g !! "GPSLatitude") as [vlat|]; [|discriminate].
  destruct (_convert_to_degrees vlat) as [a|e1] eqn:E1;
    cbn [mbind result_bind bind].
  2:{ intros [= <-]. apply convert_to_degrees_raise in E1.
      split; [tauto | intros ->; destruct E1; discriminate]. }
  destruct (g !! "GPSLatitudeRef") as [rlat|]; [|discriminate].
  destruct (g !! "GPSLongitude") as [vlon|]; [|discriminate].
  destruct (_convert_to_degrees vlon) as [b|e2] eqn:E2;
    cbn [mbind result_bind bind].
  2:{ intros [= <-]. apply convert_to_degrees_raise in E2.
      split; [tauto | intros ->; destruct E2; discriminate]. }
  destruct (g !! "GPSLongitudeRef") as [rlon|]; [|discriminate].
  destruct (img_direction (g !! "GPSImgDirection")) as [d|e3] eqn:E3;
    cbn [mbind result_bind bind]; [discriminate|].
  intros [= <-]. apply img_direction_raise in E3.
  destruct E3 as [->|(-> & xs & d & Hdir & Hd & Hz)].
  - split; [tauto | discriminate].
  - split; [tauto | intros _; eauto 10].
Qed.

Lemma zero_denominator_raises :
  get_lat_lon_direction (Some zero_denominator_gps) = Raise ZeroDivisionError.
Proof.
  assert (H1 : zero_denominator_gps !! "GPSLatitude"
               = Some (VTuple [Fin 50; Fin 5; Fin 15])) by reflexivity.
  assert (H2 : zero_denominator_gps !! "GPSLatitudeRef" = Some (VString "N"))
    by reflexivity.
  assert (H3 : zero_denominator_gps !! "GPSLongitude"
               = Some (VTuple [Fin 14; Fin 25; Fin 30])) by reflexivity.
  assert (H4 : zero_denominator_gps !! "GPSLongitudeRef" = Some (VString "E"))
    by reflexivity.
  assert (H5 : zero_denominator_gps !! "GPSImgDirection"
               = Some (VTuple [Fin 90; Fin 0])) by reflexivity.
  unfold get_lat_lon_direction.
  destruct (decide (zero_denominator_gps = ∅)) as [E|_];
    [now rewrite E, lookup_empty in H1|].
  rewrite H1, H2, H3, H4, H5, !aiaiail_convert_to_degrees.
  cbn [mbind result_bind bind differs String.eqb Ascii.eqb Bool.eqb negb
       img_direction index lookup list_lookup fdiv xreal_float].
  unfold XReal.div. now rewrite is_zero_lit_0.
Qed.

Lemma extractor_exceptions_witness :
  (ZeroDivisionError = IndexError \/ ZeroDivisionError = TypeError
   \/ ZeroDivisionError = ZeroDivisionError)
  /\ (ZeroDivisionError = ZeroDivisionError ->
        exists g xs d, Some zero_denominator_gps = Some g
          /\ g !! "GPSImgDirection" = Some (VTuple xs)
          /\ xs !! 1%nat = Some d /\ XReal.is_zero d = true).
Proof.
  apply (extractor_exceptions (Some zero_denominator_gps) ZeroDivisionError).
  exact zero_denominator_raises.
Defined.

End AiaiailExtractorExact.

(** *** The exifread extractor and the scan *)

Section KivyExtractor.
Context {F : Type} `{PyFloat F}.
Import Kivy.

(** X15: [get_decimal_coordinates] returns both coordinates or none: when it
    returns, either the latitude or the longitude tag is missing and both
    results are None, or both results are numbers and all four tags
    (latitude, longitude and their two references) are present.  With both
    coordinate tags present and a reference tag missing it raises
    instead. *)
Theorem coordinates_both_or_none (tags : gmap string tag_values)
    (lat lon : option F) :
  get_decimal_coordinates tags = Ok (lat, lon) ->
  (lat = None /\ lon = None
   /\ (tags !! "GPS GPSLatitude" = None \/ tags !! "GPS GPSLongitude" = None))
  \/ (is_Some lat /\ is_Some lon
      /\ is_Some (tags !! "GPS GPSLatitude")
      /\ is_Some (tags !! "GPS GPSLatitudeRef")
      /\ is_Some (tags !! "GPS GPSLongitude")
      /\ is_Some (tags !! "GPS GPSLongitudeRef")).
Proof.
  unfold get_decimal_coordinates.
  destruct (tags !! "GPS GPSLatitude") as [vlat|];
    [|intros [= <- <-]; left; auto].
  destruct (tags !! "GPS GPSLongitude") as [vlon|];
    [|intros [= <- <-]; left; auto].
  destruct (_convert_to_degrees vlat) as [a|]; [|discriminate].
  cbn [mbind result_bind bind].
  destruct (_convert_to_degrees vlon) as [b|]; [|discriminate].
  cbn [mbind result_bind bind].
  destruct (tags !! "GPS GPSLatitudeRef") as [rlat|]; [|discriminate].
  destruct (ref_differs (Some rlat) "N") as [south|]; [|discriminate].
  cbn [mbind result_bind bind].
  destruct (tags !! "GPS GPSLongitudeRef") as [rlon|]; [|discriminate].
  destruct (ref_differs (Some rlon) "E") as [west|]; [|discriminate].
  cbn [mbind result_bind bind]. intros [= <- <-]. right. eauto 10.
Qed.

Lemma kivy_scan_file_acc (filepath : string) (tags : result (gmap string tag_values))
    (images : list (image F)) :
  scan_file filepath tags images = images ++ scan_file filepath tags [].
Proof.
  unfold scan_file.
  destruct (_ ≫= _) as [[[lat lon] o]|]; [|now rewrite app_nil_r].
  destruct (truth lat && truth lon); now rewrite ?app_nil_r.
Qed.

Lemma kivy_scan_foldl_acc (files : list (string * result (gmap string tag_values)))
    (acc : list (image F)) :
  foldl (fun acc f => scan_file (fst f) (snd f) acc) acc files
  = acc ++ scan_directory_for_images files.
Proof.
  unfold scan_directory_for_images. revert acc.
  induction files as [|f files IH]; intros acc; cbn [foldl].
  - now rewrite app_nil_r.
  - rewrite IH, (IH (scan_file _ _ [])), (kivy_scan_file_acc _ _ acc).
    now rewrite app_assoc.
Qed.

Lemma scan_directory_for_images_cons
    (f : string * result (gmap string tag_values))
    (files : list (string * result (gmap string tag_values))) :
  scan_directory_for_images (f :: files)
  = scan_file (fst f) (snd f) [] ++ scan_directory_for_images files.
Proof. unfold scan_directory_for_images at 1. cbn [foldl]. apply kivy_scan_foldl_acc. Qed.

Lemma kivy_scan_file_In (filepath : string) (tags : result (gmap string tag_values))
    (im : image F) :
  In im (scan_file filepath tags [])
  <-> exists t, tags = Ok t
        /\ get_decimal_coordinates t = Ok (latitude im, longitude im)
        /\ get_orientation t = Ok (orientation im)
        /\ truth (latitude im) && truth (longitude im) = true
        /\ path im = filepath.
Proof.
  unfold scan_file. split.
  - destruct tags as [t|]; cbn [mbind result_bind bind]; [|intros []].
    destruct (get_decimal_coordinates t) as [[lat lon]|] eqn:E;
      cbn [mbind result_bind bind]; [|intros []].
    destruct (get_orientation t) as [o|] eqn:Eo; cbn [mbind result_bind bind];
      [|intros []].
    destruct (truth lat && truth lon) eqn:Et; [|intros []].
    cbn. intros [<-|[]]. exists t. cbn. auto.
  - intros (t & -> & E & Eo & Et & <-). cbn [mbind result_bind bind].
    rewrite E. cbn [mbind result_bind bind]. rewrite Eo.
    cbn [mbind result_bind bind]. rewrite Et. destruct im; now left.
Qed.

(** X16: [scan_directory_for_images] never raises, and its images are exactly
    the files whose tags could be read, whose coordinates and orientation
    were extracted without an exception and whose latitude and longitude
    are both true, in the order of the files and each file at most once.  In
    particular every image of the list has a latitude and a longitude, and
    neither is zero. *)
Theorem scan_directory_for_images_records
    (files : list (string * result (gmap string tag_values))) :
  sublist (map path (scan_directory_for_images files)) (map fst files)
  /\ forall im : image F,
       In im (scan_directory_for_images files)
       <-> exists t, In (path im, Ok t) files
             /\ get_decimal_coordinates t = Ok (latitude im, longitude im)
             /\ get_orientation t = Ok (orientation im)
             /\ truth (latitude im) && truth (longitude im) = true.
Proof.
  induction files as [|[p tags] files [IHs IHi]].
  - split; [constructor|]. intros im. split; [intros []|intros (t & [] & _)].
  - rewrite scan_directory_for_images_cons. cbn [fst snd map]. split.
    + unfold scan_file.
      destruct (_ ≫= _) as [[[lat lon] o]|]; [|now apply sublist_cons].
      destruct (truth lat && truth lon); [|now apply sublist_cons].
      now apply sublist_skip.
    + intros im. rewrite in_app_iff, kivy_scan_file_In, IHi. split.
      * intros [(t & -> & E & Eo & Et & <-)|(t & Hin & E)]; exists t;
          [split; [now left | auto] | split; [now right | auto]].
      * intros (t & [[= <- ->]|Hin] & E & Eo & Et); [left | right]; eauto 10.
Qed.

(** X17: [scan_directory_for_images] is compositional: scanning two batches
    of files one after the other gives the images of the first batch
    followed by the images of the second. *)
Theorem scan_directory_for_images_app
    (fs1 fs2 : list (string * result (gmap string tag_values))) :
  scan_directory_for_images (F := F) (fs1 ++ fs2)
  = scan_directory_for_images fs1 ++ scan_directory_for_images fs2.
Proof.
  induction fs1 as [|f fs1 IH]; [reflexivity|].
  rewrite <- app_comm_cons, !scan_directory_for_images_cons, IH.
  now rewrite app_assoc.
Qed.

End KivyExtractor.

Section KivyExtractorExact.
Local Open Scope R_scope.
Import Kivy.

Lemma truthy_fin (r : R) : r <> 0 -> truthy (Fin r) = true.
Proof.
  intros Hr. cbn. unfold XReal.truth, XReal.is_zero, XReal.Reqb.
  now destruct (Req_dec_T r 0).
Qed.

(** X18: the direction in the Kivy variant, in exact arithmetic, for a file
    whose coordinates are extracted and true: without a GPSImgDirection tag
    the image is recorded with orientation None (unlike the other variant,
    the direction is optional here); with a first ratio [n/d], [d] not zero,
    it is recorded with orientation [n/d]; and with a zero denominator the
    division raises and the file is left out although its coordinates are
    valid. *)
Theorem orientation_of_scanned_file (filepath : string)
    (tags : gmap string tag_values) (images : list (image xreal))
    (lat lon : option xreal) :
  get_decimal_coordinates tags = Ok (lat, lon) ->
  truth lat = true -> truth lon = true ->
  (tags !! "GPS GPSImgDirection" = None ->
     scan_file filepath (Ok tags) images
     = images ++ [Image filepath lat lon None])
  /\ (forall (n d : Z) rs,
        tags !! "GPS GPSImgDirection" = Some (Ratios ((n, d) :: rs)) ->
        d <> 0%Z ->
        scan_file filepath (Ok tags) images
        = images ++ [Image filepath lat lon (Some (Fin (IZR n / IZR d)))])
  /\ (forall (n : Z) rs,
        tags !! "GPS GPSImgDirection" = Some (Ratios ((n, 0%Z) :: rs)) ->
        scan_file filepath (Ok tags) images = images).
Proof.
  intros E Hlat Hlon. unfold scan_file. cbn [mbind result_bind bind].
  rewrite E. cbn [mbind result_bind bind]. unfold get_orientation.
  split; [|split].
  - intros ->. cbn [mbind result_bind bind]. now rewrite Hlat, Hlon.
  - intros n d rs -> Hd. cbn [ratio_at lookup list_lookup].
    cbn [lit xreal_float fdiv]. rewrite div_fin by assumption.
    cbn [mbind result_bind bind]. now rewrite Hlat, Hlon.
  - intros n rs ->. cbn [ratio_at lookup list_lookup].
    cbn [lit xreal_float fdiv]. unfold XReal.div. now rewrite is_zero_lit_0.
Qed.

Lemma prague_coordinates :
  get_decimal_coordinates prague_tags
  = Ok (Some (Fin (dms (50 / 1) (5 / 1) (15 / 1))),
        Some (Fin (dms (14 / 1) (25 / 1) (30 / 1)))).
Proof.
  rewrite (kivy_decimal_coordinates prague_tags
             50%Z 1%Z 5%Z 1%Z 15%Z 1%Z 14%Z 1%Z 25%Z 1%Z 30%Z 1%Z "N" "E");
    try reflexivity; discriminate.
Qed.

Lemma dms_pos (d m s : R) : 0 < d -> 0 <= m -> 0 <= s -> dms d m s <> 0.
Proof. unfold dms. lra. Qed.

Lemma orientation_of_scanned_file_witness :
  scan_file "prague.jpg" (Ok prague_tags) []
  = [] ++ [Image "prague.jpg" (Some (Fin (dms (50 / 1) (5 / 1) (15 / 1))))
             (Some (Fin (dms (14 / 1) (25 / 1) (30 / 1)))) None].
Proof.
  apply (proj1 (orientation_of_scanned_file "prague.jpg" prague_tags [] _ _
                  prague_coordinates
                  (truthy_fin _ (dms_pos (50 / 1) (5 / 1) (15 / 1)
                                   ltac:(lra) ltac:(lra) ltac:(lra)))
                  (truthy_fin _ (dms_pos (14 / 1) (25 / 1) (30 / 1)
                                   ltac:(lra) ltac:(lra) ltac:(lra))))).
  reflexivity.
Defined.

Lemma coordinates_both_or_none_witness :
  (Some (Fin 0) = None /\ Some (Fin 10) = None
   /\ (equator_tags !! "GPS GPSLatitude" = None
       \/ equator_tags !! "GPS GPSLongitude" = None))
  \/ (is_Some (Some (Fin 0)) /\ is_Some (Some (Fin 10))
      /\ is_Some (equator_tags !! "GPS GPSLatitude")
      /\ is_Some (equator_tags !! "GPS GPSLatitudeRef")
      /\ is_Some (equator_tags !! "GPS GPSLongitude")
      /\ is_Some (equator_tags !! "GPS GPSLongitudeRef")).
Proof.
  apply (coordinates_both_or_none (F := xreal) equator_tags).
  exact equator_coordinates.
Defined.

End KivyExtractorExact.

(** ** The left pane and the start of the program *)


Section PaneFacts.
Context {F : Type} `{PyFloat F}.
Import MainWindow.

Lemma clear_loop_take (n : nat) (left_layout : list label) :
  (n <= length left_layout)%nat ->
  clear_loop n left_layout = (drop n left_layout, Ok tt).
Proof.
  revert left_layout. induction n as [|i IH]; intros l Hn; [reflexivity|].
  cbn [clear_loop].
  destruct (lookup_lt_is_Some_2 l i ltac:(lia)) as [w Hw]. rewrite Hw.
  rewrite IH by (rewrite length_delete by eauto; lia).
  f_equal. revert l Hn Hw. clear IH.
  induction i as [|i IHi]; intros [|x l] Hn Hw; try discriminate.
  - reflexivity.
  - cbn [delete list_delete drop]. cbn in Hn, Hw. apply IHi; [lia | exact Hw].
Qed.

Lemma display_app (left_layout : list label) (sel : list (F * Aiaiail.photo F)) :
  display left_layout sel
  = left_layout ++ map (fun dp => Label (Aiaiail.filepath (snd dp)) 200) sel.
Proof.
  unfold display. revert left_layout.
  induction sel as [|dp sel IH]; intros l; cbn [foldl map].
  - now rewrite app_nil_r.
  - now rewrite IH, <- app_assoc.
Qed.

(** X19: the left pane after [update_left_pane]: the clearing loop removes
    every label of any layout without an error; when the selection returns,
    the pane holds exactly one label per selected photo, nearest first, each
    with the photo's file scaled to width 200, whatever the pane held
    before; and when the selection raises, the exception leaves the call
    and the pane stays empty, since it was cleared first. *)
Theorem left_pane_after_update (photo_list : list (Aiaiail.photo F))
    (left_layout : list label) (lat lng rotation : F) :
  clear_loop (length left_layout) left_layout = ([], Ok tt)
  /\ (forall selected_photos,
        Aiaiail.update_left_pane photo_list lat lng rotation = Ok selected_photos ->
        update_left_pane photo_list left_layout lat lng rotation
        = (map (fun dp => Label (Aiaiail.filepath (snd dp)) 200) selected_photos,
           Ok tt))
  /\ (forall e,
        Aiaiail.update_left_pane photo_list lat lng rotation = Raise e ->
        update_left_pane photo_list left_layout lat lng rotation = ([], Raise e)).
Proof.
  assert (Hc : clear_loop (length left_layout) left_layout = ([], Ok tt)).
  { rewrite clear_loop_take by lia. now rewrite drop_all. }
  split; [exact Hc|]. unfold update_left_pane. rewrite Hc.
  split; [intros sel -> | intros e ->]; [|reflexivity].
  now rewrite display_app.
Qed.

(** X20: [main] exits with status 1, before any window is shown, exactly when
    no scanned file has complete metadata; otherwise the window gets the
    records of the scan, and there is at least one. *)
Theorem main_exit_status
    (files : list (string * result (option (gmap string (Aiaiail.exif_value F))))) :
  (main files = Exit 1
   <-> forall path e lat lon dir,
         In (path, Ok e) files ->
         Aiaiail.get_lat_lon_direction e <> Ok (Some lat, Some lon, Some dir))
  /\ (forall photo_list,
        main files = Window photo_list ->
        photo_list = Aiaiail.scan_directory files /\ photo_list <> []).
Proof.
  unfold main. split.
  - split.
    + destruct (Aiaiail.scan_directory files) as [|p l] eqn:E; [|discriminate].
      intros _ path e lat lon dir Hin Hex.
      assert (Hp : In (Aiaiail.Photo path lat lon dir) (Aiaiail.scan_directory files))
        by (apply scan_directory_In; exists e; auto).
      now rewrite E in Hp.
    + intros Hnone.
      destruct (Aiaiail.scan_directory files) as [|p l] eqn:E; [reflexivity|].
      assert (Hp : In p (Aiaiail.scan_directory files)) by (rewrite E; now left).
      apply scan_directory_In in Hp as (e & Hin & Hex).
      exfalso. exact (Hnone _ _ _ _ _ Hin Hex).
  - intros photo_list.
    destruct (Aiaiail.scan_directory files) as [|p l]; [discriminate|].
    intros [= <-]. split; [reflexivity | discriminate].
Qed.

End PaneFacts.
